(** * virtManager/inspection.py: the libguestfs inspection thread

    A shallow embedding of [vmmInspection] (src/virtManager/inspection.py)
    and the properties its specification states about it.

    Python objects the thread only talks to (connections, domains, the
    libguestfs handle) are modelled as oracles over an abstract world:
    every call may change the world, may return a value and may raise.
    The thread's own state ([_q], [_conns], [_vmseen]) is explicit. *)

From Stdlib Require Import ZArith List String Lia Permutation Sorted.
From stdpp Require Import gmap strings list fin_maps.
Import ListNotations.

Local Open Scope string_scope.
Local Open Scope list_scope.

(** ** Exceptions and results *)

(** The exceptions that matter to the control flow of the module.
    [Empty] is [Queue.Empty]; [Error] stands for whatever a collaborator
    raises (libvirt errors, [RuntimeError] from libguestfs, ...). *)
Inductive exn : Type :=
| KeyError (key : string)
| AttributeError (attr : string)
| Empty
| Error (msg : string).

Inductive result (A : Type) : Type :=
| Ok (a : A)
| Raise (e : exn).
Arguments Ok {A} a.
Arguments Raise {A} e.

(** ** A state and exception monad

    [M S A] is a Python statement sequence run on a state [S]: the state
    survives an exception, as the heap of the interpreter does. *)
Definition M (S A : Type) : Type := S -> result A * S.

Definition raise {S A} (e : exn) : M S A := fun s => (Raise e, s).

Global Instance M_ret {S} : MRet (M S) := fun A a s => (Ok a, s).

Global Instance M_bind {S} : MBind (M S) := fun A B k m s =>
  match m s with
  | (Ok a, s') => k a s'
  | (Raise e, s') => (Raise e, s')
  end.

(** [try: m except: h], with a bare [except:] that catches everything. *)
Definition try_except {S A} (m : M S A) (h : exn -> M S A) : M S A :=
  fun s => match m s with
           | (Ok a, s') => (Ok a, s')
           | (Raise e, s') => h e s'
           end.

Definition get {S} : M S S := fun s => (Ok s, s).
Definition modify {S} (f : S -> S) : M S unit := fun s => (Ok tt, f s).

(** [for x in l: body x] *)
Fixpoint for_each {S A} (l : list A) (body : A -> M S unit) : M S unit :=
  match l with
  | [] => mret tt
  | x :: l' => _ ← body x; for_each l' body
  end.

(** ** The mount point order (lines 154-164)

    [inspect_get_mountpoints] returns a list of (mountpoint, device)
    tuples; [compare] looks at the length of the mountpoint only. *)
Definition mp_dev : Type := (string * string)%type.

Definition compare (a b : mp_dev) : Z :=
  if (String.length (fst b) <? String.length (fst a))%nat then 1%Z
  else if (String.length (fst a) =? String.length (fst b))%nat then 0%Z
  else (-1)%Z.

(** [list.sort(cmp)] is a stable comparison sort: elements that compare
    equal keep their input order.  A stable sort by a total preorder has
    one possible result, here computed by insertion from the right. *)
Fixpoint sort_insert {A} (cmp : A -> A -> Z) (x : A) (l : list A) : list A :=
  match l with
  | [] => [x]
  | y :: l' => if (cmp x y <=? 0)%Z then x :: y :: l'
               else y :: sort_insert cmp x l'
  end.

Fixpoint list_sort {A} (cmp : A -> A -> Z) (l : list A) : list A :=
  match l with
  | [] => []
  | x :: l' => sort_insert cmp x (list_sort cmp l')
  end.

Definition mp_len (a : mp_dev) : nat := String.length (fst a).

(** ** Collaborators *)

(** A connection object as the thread uses it.  [conn_obj] is the
    identity of the Python object, so that two connection objects with the
    same URI can be told apart; [is_remote()] and [get_uri()] are getters
    of the object. *)
Record connection : Type := {
  conn_obj : nat;
  is_remote : bool;
  get_uri : string
}.

Global Instance connection_eq_dec : EqDecision connection.
Proof. solve_decision. Defined.

(** A disk device of a domain: [disk.path] (or [None]), [disk.type] and
    [disk.driver_type] (or [None]). *)
Record disk : Type := {
  path : option string;
  type : string;
  driver_type : option string
}.

(** A domain object; [get_disk_devices()] may raise. *)
Record vm : Type := {
  vm_obj : nat;
  get_disk_devices : result (list disk)
}.

(** The libvirt side of a connection, over a world [W]. *)
Record libvirt (W : Type) : Type := {
  list_vm_uuids : connection -> M W (list string);
  get_vm : connection -> string -> M W vm
}.
Arguments list_vm_uuids {W} _ _ _.
Arguments get_vm {W} _ _ _ _.

(** The [guestfs.GuestFS] class of the installed libguestfs build.  The
    three [has_*] fields say whether the class has the attribute
    ([hasattr]); the methods are oracles over the world.  [close] is what
    dropping the last reference to the handle does. *)
Record guestfs (W : Type) : Type := {
  has_inspect_get_product_variant : bool;
  has_inspect_get_icon : bool;
  has_inspect_list_applications : bool;
  GuestFS : M W unit;
  add_drive_opts : string -> Z -> option string -> M W unit;
  launch : M W unit;
  inspect_os : M W (list string);
  inspect_get_type : string -> M W string;
  inspect_get_distro : string -> M W string;
  inspect_get_major_version : string -> M W Z;
  inspect_get_minor_version : string -> M W Z;
  inspect_get_hostname : string -> M W string;
  inspect_get_product_name : string -> M W string;
  inspect_get_product_variant : string -> M W string;
  inspect_get_mountpoints : string -> M W (list mp_dev);
  mount_ro : string -> string -> M W unit;
  inspect_get_icon : string -> Z -> Z -> M W string;
  inspect_list_applications : string -> M W (list string);
  close : W -> W
}.
Arguments has_inspect_get_product_variant {W} _.
Arguments has_inspect_get_icon {W} _.
Arguments has_inspect_list_applications {W} _.
Arguments GuestFS {W} _ _.
Arguments add_drive_opts {W} _ _ _ _ _.
Arguments launch {W} _ _.
Arguments inspect_os {W} _ _.
Arguments inspect_get_type {W} _ _ _.
Arguments inspect_get_distro {W} _ _ _.
Arguments inspect_get_major_version {W} _ _ _.
Arguments inspect_get_minor_version {W} _ _ _.
Arguments inspect_get_hostname {W} _ _ _.
Arguments inspect_get_product_name {W} _ _ _.
Arguments inspect_get_product_variant {W} _ _ _.
Arguments inspect_get_mountpoints {W} _ _ _.
Arguments mount_ro {W} _ _ _ _.
Arguments inspect_get_icon {W} _ _ _ _ _.
Arguments inspect_list_applications {W} _ _ _.
Arguments close {W} _ _.

(** What the thread does with the handle [g], in program order. *)
Inductive call : Type :=
| C_GuestFS
| C_add_drive_opts (path : string) (readonly : Z) (format : option string)
| C_launch
| C_inspect_os
| C_inspect_get_type (root : string)
| C_inspect_get_distro (root : string)
| C_inspect_get_major_version (root : string)
| C_inspect_get_minor_version (root : string)
| C_inspect_get_hostname (root : string)
| C_inspect_get_product_name (root : string)
| C_inspect_get_product_variant (root : string)
| C_inspect_get_mountpoints (root : string)
| C_mount_ro (device mountpoint : string)
| C_inspect_get_icon (root : string) (favicon highquality : Z)
| C_inspect_list_applications (root : string)
| C_del_g.

Global Instance call_eq_dec : EqDecision call.
Proof. solve_decision. Defined.

(** The world together with the record of calls made on handles. *)
Record host (W : Type) : Type := {
  world : W;
  calls : list call
}.
Arguments world {W} _.
Arguments calls {W} _.

(** What [_process] has in its local variables when it logs its findings. *)
Record inspection : Type := {
  typ : string;
  distro : string;
  major_version : Z;
  minor_version : Z;
  hostname : string;
  product_name : string;
  product_variant : option string;
  filesystems_mounted : bool;
  icon : option string;
  apps : option (list string)
}.

Definition lift_result {S A} (r : result A) : M S A := fun s => (r, s).

Section MachineInspector.
Context {W : Type}.
Variable g : guestfs W.

(** A method call on the handle: recorded, then answered by the world. *)
Definition invoke {A} (c : call) (m : M W A) : M (host W) A :=
  fun h => let '(r, w) := m (world h) in
           (r, {| world := w; calls := calls h ++ [c] |}).

(** [del g] *)
Definition del_g : M (host W) unit :=
  fun h => (Ok tt, {| world := close g (world h); calls := calls h ++ [C_del_g] |}).

(** Line 118: [(disk.type == "block" or disk.type == "file") and path != None] *)
Definition attachable (d : disk) : bool :=
  (String.eqb (type d) "block" || String.eqb (type d) "file")
  && bool_decide (path d ≠ None).

(** Lines 115-119. *)
Definition add_disk (d : disk) : M (host W) unit :=
  if attachable d then
    match path d with
    | Some p => invoke (C_add_drive_opts p 1 (driver_type d))
                       (add_drive_opts g p 1 (driver_type d))
    | None => mret tt
    end
  else mret tt.

(** Lines 166-173. *)
Definition mount_one (mp_dev : mp_dev) : M (host W) unit :=
  try_except
    (invoke (C_mount_ro (snd mp_dev) (fst mp_dev))
            (mount_ro g (snd mp_dev) (fst mp_dev)))
    (fun _ => mret tt).

(** Lines 150-178; the value is [filesystems_mounted]. *)
Definition mount_filesystems (root : string) : M (host W) bool :=
  try_except
    (mps ← invoke (C_inspect_get_mountpoints root) (inspect_get_mountpoints g root);
     _ ← for_each (list_sort compare mps) mount_one;
     mret true)
    (fun _ => mret false).

(** Lines 184-188. *)
Definition get_icon (root : string) : M (host W) (option string) :=
  if has_inspect_get_icon g then
    icon ← invoke (C_inspect_get_icon root 0 1) (inspect_get_icon g root 0 1);
    mret (if String.eqb icon "" then None else Some icon)
  else mret None.

(** Line 191: the attribute is looked up without a [hasattr] test. *)
Definition list_applications (root : string) : M (host W) (list string) :=
  if has_inspect_list_applications g then
    invoke (C_inspect_list_applications root) (inspect_list_applications g root)
  else raise (AttributeError "inspect_list_applications").

(** Lines 180-191; the value is [(icon, apps)]. *)
Definition extract (root : string) (mounted : bool)
  : M (host W) (option string * option (list string)) :=
  if mounted then
    icon ← get_icon root;
    apps ← list_applications root;
    mret (icon, Some apps)
  else mret (None, None).

(** Lines 142-144. *)
Definition get_product_variant (root : string) : M (host W) (option string) :=
  if has_inspect_get_product_variant g then
    v ← invoke (C_inspect_get_product_variant root) (inspect_get_product_variant g root);
    mret (Some v)
  else mret None.

(** Lines 150-191; the value is [(filesystems_mounted, (icon, apps))]. *)
Definition mount_and_extract (root : string)
  : M (host W) (bool * (option string * option (list string))) :=
  mounted ← mount_filesystems root;
  found ← extract root mounted;
  mret (mounted, found).

(** Lines 131-194, once a root was found. *)
Definition inspect_root (root : string) : M (host W) inspection :=
  typ ← invoke (C_inspect_get_type root) (inspect_get_type g root);
  distro ← invoke (C_inspect_get_distro root) (inspect_get_distro g root);
  major_version ← invoke (C_inspect_get_major_version root)
                          (inspect_get_major_version g root);
  minor_version ← invoke (C_inspect_get_minor_version root)
                          (inspect_get_minor_version g root);
  hostname ← invoke (C_inspect_get_hostname root) (inspect_get_hostname g root);
  product_name ← invoke (C_inspect_get_product_name root)
                         (inspect_get_product_name g root);
  product_variant ← get_product_variant root;
  '(mounted, (icon, apps)) ← mount_and_extract root;
  _ ← del_g;
  mret {| typ := typ; distro := distro;
          major_version := major_version; minor_version := minor_version;
          hostname := hostname; product_name := product_name;
          product_variant := product_variant;
          filesystems_mounted := mounted;
          icon := icon; apps := apps |}.

(** Lines 113-119. *)
Definition attach_disks (v : vm) : M (host W) unit :=
  _ ← invoke C_GuestFS (GuestFS g);
  disks ← lift_result (get_disk_devices v);
  for_each disks add_disk.

(** [_process] (lines 112-204).  Python returns [None] on every path;
    the model returns what the function logs: [None] when no operating
    system was found, the inspection data otherwise. *)
Definition _process (conn_ignore : connection) (v : vm) (vmuuid : string)
  : M (host W) (option inspection) :=
  _ ← attach_disks v;
  _ ← invoke C_launch (launch g);
  roots ← invoke C_inspect_os (inspect_os g);
  match roots with
  | [] => mret None
  | root :: _ => r ← inspect_root root; mret (Some r)
  end.

End MachineInspector.

(** ** The inspection thread *)

(** The objects put on the queue: [("conn_added", conn)],
    [("conn_removed", uri)] and [("vm_added")].  [conn] may be [None].
    The last one is a plain string, not a tuple: its first character
    equals none of the three tags, so [_process_queue_item] does nothing
    with it, which is also what the branch for "vm_added" does. *)
Inductive qobj : Type :=
| Conn_added (conn : option connection)
| Conn_removed (uri : string)
| Vm_added.

(** Instrumentation: what the thread did, in program order.  [Ev_get] is a
    [get] on the queue that returned the object, [Ev_scan] the entry of
    [_process_vms], [Ev_get_vm] and [Ev_process] the calls of
    [conn.get_vm] and [self._process] for a machine. *)
Inductive event : Type :=
| Ev_get (obj : qobj)
| Ev_scan
| Ev_get_vm (vmuuid : string)
| Ev_process (vmuuid : string).

(** The thread object.  [_vmseen] is a dict whose values are all [True]:
    a set of keys.  [outside] is everything that is not the thread's. *)
Record vmmInspection (W : Type) : Type := {
  _q : list qobj;
  _conns : gmap string connection;
  _vmseen : gset string;
  outside : host W;
  journal : list event
}.
Arguments _q {W} _.
Arguments _conns {W} _.
Arguments _vmseen {W} _.
Arguments outside {W} _.
Arguments journal {W} _.

Section Thread.
Context {W : Type}.
Variable g : guestfs W.
Variable lv : libvirt W.

Local Abbreviation self := (vmmInspection W).

Definition set_q (q : list qobj) (s : self) : self :=
  {| _q := q; _conns := _conns s; _vmseen := _vmseen s;
     outside := outside s; journal := journal s |}.
Definition set_conns (c : gmap string connection) (s : self) : self :=
  {| _q := _q s; _conns := c; _vmseen := _vmseen s;
     outside := outside s; journal := journal s |}.
Definition set_vmseen (v : gset string) (s : self) : self :=
  {| _q := _q s; _conns := _conns s; _vmseen := v;
     outside := outside s; journal := journal s |}.
Definition set_outside (h : host W) (s : self) : self :=
  {| _q := _q s; _conns := _conns s; _vmseen := _vmseen s;
     outside := h; journal := journal s |}.
Definition record (e : event) (s : self) : self :=
  {| _q := _q s; _conns := _conns s; _vmseen := _vmseen s;
     outside := outside s; journal := journal s ++ [e] |}.

(** [__init__] *)
Definition init (h : host W) : self :=
  {| _q := []; _conns := ∅; _vmseen := ∅; outside := h; journal := [] |}.

(** The callbacks of the main thread (lines 41-52): [Queue.put]. *)
Definition conn_added (conn : option connection) (s : self) : self :=
  set_q (_q s ++ [Conn_added conn]) s.
Definition conn_removed (uri : string) (s : self) : self :=
  set_q (_q s ++ [Conn_removed uri]) s.
Definition vm_added (s : self) : self :=
  set_q (_q s ++ [Vm_added]) s.

(** Code that runs on the outside of the thread object. *)
Definition on_host {A} (m : M (host W) A) : M self A :=
  fun s => let '(r, h) := m (outside s) in (r, set_outside h s).
Definition on_world {A} (m : M W A) : M self A :=
  on_host (fun h => let '(r, w) := m (world h) in
                    (r, {| world := w; calls := calls h |})).

(** [_process_queue_item] (lines 81-92).  [del d[k]] raises [KeyError]
    when [k] is not a key of [d]. *)
Definition _process_queue_item (obj : qobj) : M self unit :=
  match obj with
  | Conn_added conn =>
      match conn with
      | Some c =>
          if negb (is_remote c)
          then modify (fun s => set_conns (<[get_uri c := c]> (_conns s)) s)
          else mret tt
      | None => mret tt
      end
  | Conn_removed uri =>
      s ← get;
      match _conns s !! uri with
      | Some _ => modify (fun s => set_conns (delete uri (_conns s)) s)
      | None => raise (KeyError uri)
      end
  | Vm_added => mret tt
  end.

(** The [while True] loop of [_process_queue] (lines 74-77) on a queue
    that holds [q]: [get(False)] raises [Empty] on the empty queue. *)
Fixpoint get_all (q : list qobj) : M self unit :=
  match q with
  | [] => raise Empty
  | obj :: q' =>
      _ ← modify (fun s => record (Ev_get obj) (set_q q' s));
      _ ← _process_queue_item obj;
      get_all q'
  end.

(** [_process_queue] (lines 69-79).  [None]: the first [get()] blocks,
    the queue being empty. *)
Definition _process_queue (s : self) : option (result unit * self) :=
  match _q s with
  | [] => None
  | first_obj :: q' =>
      Some ((_ ← modify (fun s => record (Ev_get first_obj) (set_q q' s));
             _ ← _process_queue_item first_obj;
             try_except (get_all q')
               (fun e => match e with Empty => mret tt | _ => raise e end)) s)
  end.

(** The body of the inner loop of [_process_vms] (lines 98-110). *)
Definition process_vm (conn : connection) (vmuuid : string) : M self unit :=
  s ← get;
  if bool_decide (vmuuid ∈ _vmseen s) then mret tt
  else
    try_except
      (_ ← modify (record (Ev_get_vm vmuuid));
       v ← on_world (get_vm lv conn vmuuid);
       _ ← modify (fun s => set_vmseen ({[vmuuid]} ∪ _vmseen s) s);
       _ ← modify (record (Ev_process vmuuid));
       _ ← on_host (_process g conn v vmuuid);
       mret tt)
      (fun _ => mret tt).

(** The body of the outer loop (lines 97-110). *)
Definition process_conn (conn : connection) : M self unit :=
  vmuuids ← on_world (list_vm_uuids lv conn);
  for_each vmuuids (process_vm conn).

(** [_process_vms] (lines 95-110).  The order in which a Python 2 dict
    yields its values is not specified; the model takes the order of
    [map_to_list]. *)
Definition _process_vms : M self unit :=
  _ ← modify (record Ev_scan);
  s ← get;
  for_each (snd <$> map_to_list (_conns s)) process_conn.

(** One turn of the [while True] loop of [run] (lines 62-65). *)
Definition run_once (s : self) : option (result unit * self) :=
  match _process_queue s with
  | None => None
  | Some (Ok _, s') => Some (_process_vms s')
  | Some (Raise e, s') => Some (Raise e, s')
  end.

(** [run] (lines 54-65) against a producer that posts the bursts of
    [posted] one after the other; the initial [time.sleep] is left out.
    Each turn of the loop starts when the queue is not empty and consumes
    what is queued: an object posted while a turn drains the queue is
    taken by that turn, one posted during the scan by the next turn, so
    that a burst stands for what one turn finds.  An exception ends the
    thread. *)
Fixpoint run (posted : list (list qobj)) (s : self) : result unit * self :=
  match posted with
  | [] => (Ok tt, s)
  | burst :: posted' =>
      match run_once (set_q (_q s ++ burst) s) with
      | None => run posted' (set_q (_q s ++ burst) s)
      | Some (Ok _, s') => run posted' s'
      | Some (Raise e, s') => (Raise e, s')
      end
  end.

End Thread.

(** ** Scripted collaborators

    Stateless instances of the oracles, to run the model on. *)

Definition fstab : list mp_dev :=
  [("/var/lib", "/dev/sda4"); ("/home", "/dev/sda3");
   ("/", "/dev/sda1"); ("/var", "/dev/sda2")].

Record script : Type := {
  s_product_variant : bool;
  s_icon : bool;
  s_applications : bool;
  s_launch : result unit;
  s_roots : list string;
  s_mountpoints : result (list mp_dev);
  s_mount_ro : string -> result unit
}.

Definition answer {A} (r : result A) : M unit A := fun w => (r, w).

Definition scripted (b : script) : guestfs unit := {|
  has_inspect_get_product_variant := s_product_variant b;
  has_inspect_get_icon := s_icon b;
  has_inspect_list_applications := s_applications b;
  GuestFS := answer (Ok tt);
  add_drive_opts := fun _ _ _ => answer (Ok tt);
  launch := answer (s_launch b);
  inspect_os := answer (Ok (s_roots b));
  inspect_get_type := fun _ => answer (Ok "linux");
  inspect_get_distro := fun _ => answer (Ok "fedora");
  inspect_get_major_version := fun _ => answer (Ok 14%Z);
  inspect_get_minor_version := fun _ => answer (Ok 0%Z);
  inspect_get_hostname := fun _ => answer (Ok "guest.example.com");
  inspect_get_product_name := fun _ => answer (Ok "Fedora release 14");
  inspect_get_product_variant := fun _ => answer (Ok "Server");
  inspect_get_mountpoints := fun _ => answer (s_mountpoints b);
  mount_ro := fun _ mountpoint => answer (s_mount_ro b mountpoint);
  inspect_get_icon := fun _ _ _ => answer (Ok "PNG");
  inspect_list_applications := fun _ => answer (Ok ["bash"; "kernel"]);
  close := fun w => w
|}.

(** A current libguestfs on a guest with the file systems of [fstab]. *)
Definition fedora : script := {|
  s_product_variant := true;
  s_icon := true;
  s_applications := true;
  s_launch := Ok tt;
  s_roots := ["/dev/sda1"];
  s_mountpoints := Ok fstab;
  s_mount_ro := fun _ => Ok tt
|}.

Definition with_launch (r : result unit) (b : script) : script := {|
  s_product_variant := s_product_variant b; s_icon := s_icon b;
  s_applications := s_applications b; s_launch := r;
  s_roots := s_roots b; s_mountpoints := s_mountpoints b;
  s_mount_ro := s_mount_ro b |}.

Definition with_roots (r : list string) (b : script) : script := {|
  s_product_variant := s_product_variant b; s_icon := s_icon b;
  s_applications := s_applications b; s_launch := s_launch b;
  s_roots := r; s_mountpoints := s_mountpoints b;
  s_mount_ro := s_mount_ro b |}.

Definition with_mount_ro (f : string -> result unit) (b : script) : script := {|
  s_product_variant := s_product_variant b; s_icon := s_icon b;
  s_applications := s_applications b; s_launch := s_launch b;
  s_roots := s_roots b; s_mountpoints := s_mountpoints b;
  s_mount_ro := f |}.

Definition with_capabilities (variant icon applications : bool) (b : script)
  : script := {|
  s_product_variant := variant; s_icon := icon;
  s_applications := applications; s_launch := s_launch b;
  s_roots := s_roots b; s_mountpoints := s_mountpoints b;
  s_mount_ro := s_mount_ro b |}.

(** The appliance does not start. *)
Definition launch_fails : script := with_launch (Raise (Error "launch")) fedora.

(** A guest with an empty disk: no operating system. *)
Definition blank_disk : script := with_roots [] fedora.

(** [/var] cannot be mounted. *)
Definition var_unmountable : script :=
  with_mount_ro (fun mountpoint => if String.eqb mountpoint "/var"
                                   then Raise (Error "mount_ro") else Ok tt)
                fedora.

(** A libguestfs older than 1.9.13: neither product variant nor icon. *)
Definition old_libguestfs : script := with_capabilities false false true fedora.

(** A build without [inspect_list_applications]. *)
Definition no_applications : script := with_capabilities true true false fedora.

(** What [_process] finds on [fedora] with [old_libguestfs]. *)
Definition found_by_old_libguestfs : inspection := {|
  typ := "linux"; distro := "fedora";
  major_version := 14; minor_version := 0;
  hostname := "guest.example.com"; product_name := "Fedora release 14";
  product_variant := None; filesystems_mounted := true;
  icon := None; apps := Some ["bash"; "kernel"]
|}.

(** The mount points of the guest cannot be listed. *)
Definition no_mountpoints : script := {|
  s_product_variant := true; s_icon := true; s_applications := true;
  s_launch := Ok tt; s_roots := ["/dev/sda1"];
  s_mountpoints := Raise (Error "inspect_get_mountpoints");
  s_mount_ro := fun _ => Ok tt |}.

(** A build without any of the three capabilities, on a guest whose
    mount points cannot be listed. *)
Definition bare_build : script := with_capabilities false false false no_mountpoints.

(** What [_process] finds with [bare_build]. *)
Definition found_by_bare_build : inspection := {|
  typ := "linux"; distro := "fedora";
  major_version := 14; minor_version := 0;
  hostname := "guest.example.com"; product_name := "Fedora release 14";
  product_variant := None; filesystems_mounted := false;
  icon := None; apps := None
|}.

(** A guest for which [inspect_get_icon] finds no icon and returns the
    empty string; all else as [fedora]. *)
Definition empty_icon : guestfs unit := {|
  has_inspect_get_product_variant := true;
  has_inspect_get_icon := true;
  has_inspect_list_applications := true;
  GuestFS := answer (Ok tt);
  add_drive_opts := fun _ _ _ => answer (Ok tt);
  launch := answer (Ok tt);
  inspect_os := answer (Ok ["/dev/sda1"]);
  inspect_get_type := fun _ => answer (Ok "linux");
  inspect_get_distro := fun _ => answer (Ok "fedora");
  inspect_get_major_version := fun _ => answer (Ok 14%Z);
  inspect_get_minor_version := fun _ => answer (Ok 0%Z);
  inspect_get_hostname := fun _ => answer (Ok "guest.example.com");
  inspect_get_product_name := fun _ => answer (Ok "Fedora release 14");
  inspect_get_product_variant := fun _ => answer (Ok "Server");
  inspect_get_mountpoints := fun _ => answer (Ok fstab);
  mount_ro := fun _ _ => answer (Ok tt);
  inspect_get_icon := fun _ _ _ => answer (Ok "");
  inspect_list_applications := fun _ => answer (Ok ["bash"; "kernel"]);
  close := fun w => w
|}.

(** What [_process] finds with [empty_icon]. *)
Definition found_with_empty_icon : inspection := {|
  typ := "linux"; distro := "fedora";
  major_version := 14; minor_version := 0;
  hostname := "guest.example.com"; product_name := "Fedora release 14";
  product_variant := Some "Server"; filesystems_mounted := true;
  icon := None; apps := Some ["bash"; "kernel"]
|}.

(** A connection that lists [uuids] and hands out the domains of [dom]. *)
Definition scripted_libvirt (uuids : connection -> list string)
    (dom : string -> result vm) : libvirt unit := {|
  list_vm_uuids := fun conn => answer (Ok (uuids conn));
  get_vm := fun _ vmuuid => answer (dom vmuuid)
|}.

(** A host with the machines "A" and "B"; the domain of "A" cannot be
    fetched. *)
Definition vanishing_A : libvirt unit :=
  scripted_libvirt (fun _ => ["A"; "B"])
    (fun vmuuid => if String.eqb vmuuid "A" then Raise (Error "no domain")
                   else Ok {| vm_obj := 2; get_disk_devices := Ok [] |}).

(** A host whose machines cannot be listed. *)
Definition unreachable_host : libvirt unit := {|
  list_vm_uuids := fun _ => answer (Raise (Error "libvirt"));
  get_vm := fun _ _ => answer (Raise (Error "libvirt"))
|}.

Definition qemu_system : connection :=
  {| conn_obj := 1; is_remote := false; get_uri := "qemu:///system" |}.

Definition qemu_system' : connection :=
  {| conn_obj := 2; is_remote := false; get_uri := "qemu:///system" |}.

Definition qemu_ssh : connection :=
  {| conn_obj := 3; is_remote := true; get_uri := "qemu+ssh://host/system" |}.

Definition sda : disk :=
  {| path := Some "/var/lib/libvirt/images/a.img"; type := "file";
     driver_type := Some "qcow2" |}.
Definition sdb : disk :=
  {| path := Some "/dev/vg/b"; type := "block"; driver_type := None |}.
Definition cdrom : disk :=
  {| path := None; type := "file"; driver_type := Some "raw" |}.
Definition netdisk : disk :=
  {| path := Some "/export/c.img"; type := "network"; driver_type := None |}.

Definition guest (n : nat) : vm :=
  {| vm_obj := n; get_disk_devices := Ok [sda; cdrom; netdisk; sdb] |}.

Definition nowhere : host unit := {| world := tt; calls := [] |}.

(** The thread right after [__init__], and with the local connection
    registered. *)
Definition listening : vmmInspection unit := init nowhere.

Definition tracking : vmmInspection unit :=
  set_conns (<[get_uri qemu_system := qemu_system]> ∅) listening.

(** Five objects posted while the thread waits. *)
Definition five_posted : list qobj :=
  [Conn_added (Some qemu_system); Vm_added; Conn_added (Some qemu_ssh);
   Vm_added; Vm_added].

(** ** Vocabulary of the statements *)

(** [only_calls P m]: whatever [m] does, it extends the record of calls
    by calls that satisfy [P]. *)
Definition only_calls {W A} (P : call -> Prop) (m : M (host W) A) : Prop :=
  forall h, exists cs, calls (m h).2 = calls h ++ cs /\ Forall P cs.

(** [closes ok m]: the calls [m] adds hold [del g] once when [m] returns
    a value that satisfies [ok], and not at all otherwise. *)
Definition closes {W A} (ok : A -> bool) (m : M (host W) A) : Prop :=
  forall h, exists cs,
    calls (m h).2 = calls h ++ cs
    /\ count_occ call_eq_dec cs C_del_g
       = match (m h).1 with
         | Ok a => if ok a then 1%nat else 0%nat
         | Raise _ => 0%nat
         end.

(** [returns P m]: a value that [m] returns satisfies [P]. *)
Definition returns {S A} (P : A -> Prop) (m : M S A) : Prop :=
  forall s a s', m s = (Ok a, s') -> P a.

(** Ascending order of a key. *)
Definition key_le {A} (key : A -> nat) (a b : A) : Prop := (key a <= key b)%nat.

(** The call that mounts a pair, and the call that attaches a disk. *)
Definition mount_call (p : mp_dev) : call := C_mount_ro p.2 p.1.

Definition attach_call (d : disk) : option call :=
  match path d with
  | Some p => if String.eqb (type d) "block" || String.eqb (type d) "file"
              then Some (C_add_drive_opts p 1 (driver_type d)) else None
  | None => None
  end.

Definition is_add_drive (c : call) : bool :=
  match c with C_add_drive_opts _ _ _ => true | _ => false end.

(** What a queue object does to the registry alone. *)
Definition registry_step (obj : qobj) (c : gmap string connection)
  : result (gmap string connection) :=
  match obj with
  | Conn_added (Some conn) =>
      if is_remote conn then Ok c else Ok (<[get_uri conn := conn]> c)
  | Conn_added None => Ok c
  | Conn_removed uri =>
      match c !! uri with
      | Some _ => Ok (delete uri c)
      | None => Raise (KeyError uri)
      end
  | Vm_added => Ok c
  end.

Fixpoint registry_steps (objs : list qobj) (c : gmap string connection)
  : result (gmap string connection) :=
  match objs with
  | [] => Ok c
  | obj :: objs' =>
      match registry_step obj c with
      | Ok c' => registry_steps objs' c'
      | Raise e => Raise e
      end
  end.

(** The connection that a sequence of queue objects leaves under [uri],
    in the words of the specification: the local connection added last
    under that URI, unless the URI was removed after it; [before] is the
    entry at the start. *)
Fixpoint last_added (uri : string) (objs : list qobj) (before : option connection)
  : option connection :=
  match objs with
  | [] => before
  | Conn_added (Some conn) :: objs' =>
      if negb (is_remote conn) && String.eqb (get_uri conn) uri
      then last_added uri objs' (Some conn)
      else last_added uri objs' before
  | Conn_removed u :: objs' =>
      if String.eqb u uri then last_added uri objs' None
      else last_added uri objs' before
  | _ :: objs' => last_added uri objs' before
  end.

(** The machines [_process] was called for, oldest first. *)
Definition processed (j : list event) : list string :=
  omap (fun e => match e with Ev_process u => Some u | _ => None end) j.

(** The invariant of the thread: no machine was processed twice, and
    every processed machine is in [_vmseen]. *)
Definition once {W} (s : vmmInspection W) : Prop :=
  NoDup (processed (journal s))
  /\ forall u, u ∈ processed (journal s) -> u ∈ _vmseen s.

(** The number of scans a journal records. *)
Definition scans (j : list event) : nat :=
  length (omap (fun e => match e with Ev_scan => Some tt | _ => None end) j).

(** What the scan of machines may do to the thread between two of its
    states: the queue and the registry stay, [_vmseen] grows, the journal
    grows by events that are not scans, the invariant stays. *)
Definition scan_step {W} (s s' : vmmInspection W) : Prop :=
  _q s' = _q s /\ _conns s' = _conns s /\ _vmseen s ⊆ _vmseen s'
  /\ (exists tail, journal s' = journal s ++ tail /\ scans tail = 0%nat)
  /\ (once s -> once s').

(** The registry holds local connections only, each under its own URI. *)
Definition local_registry (c : gmap string connection) : Prop :=
  forall uri conn, c !! uri = Some conn ->
                   is_remote conn = false /\ get_uri conn = uri.

(** A queue object that enters a connection in the registry. *)
Definition adds_local (obj : qobj) : bool :=
  match obj with
  | Conn_added (Some conn) => negb (is_remote conn)
  | _ => false
  end.

(** [ends_with_del ok m]: when [m] returns a value that satisfies [ok],
    the last call it made is [del g]. *)
Definition ends_with_del {W A} (ok : A -> Prop) (m : M (host W) A) : Prop :=
  forall h a h', m h = (Ok a, h') -> ok a ->
                 exists cs, calls h' = calls h ++ cs ++ [C_del_g].

(** * Properties *)

(** ** Mount order *)

Section Sorting.
Context {A : Type}.
Variable cmp : A -> A -> Z.

Lemma sort_insert_perm (x : A) (l : list A) :
  Permutation (sort_insert cmp x l) (x :: l).
Proof.
  induction l as [|y l IH]; simpl; [reflexivity|].
  destruct (cmp x y <=? 0)%Z; [reflexivity|].
  rewrite IH. apply perm_swap.
Qed.

Lemma list_sort_perm (l : list A) : Permutation (list_sort cmp l) l.
Proof.
  induction l as [|x l IH]; simpl; [reflexivity|].
  rewrite sort_insert_perm. now constructor.
Qed.

(** Sortedness, for a comparison that follows a key. *)
Variable key : A -> nat.
Hypothesis cmp_key : forall a b, (cmp a b <=? 0)%Z = (key a <=? key b)%nat.

Lemma sort_insert_sorted (x : A) (l : list A) :
  StronglySorted (key_le key) l -> StronglySorted (key_le key) (sort_insert cmp x l).
Proof.
  induction 1 as [|y l Hs IH Hy]; simpl.
  - repeat constructor.
  - rewrite cmp_key. destruct (Nat.leb_spec (key x) (key y)) as [Hxy|Hxy].
    + constructor; [now constructor|].
      constructor; [exact Hxy|].
      eapply Forall_impl; [exact Hy|]. unfold key_le. intros; lia.
    + constructor; [exact IH|].
      eapply Permutation_Forall; [symmetry; apply sort_insert_perm|].
      constructor; [unfold key_le; lia | exact Hy].
Qed.

Lemma list_sort_sorted (l : list A) : StronglySorted (key_le key) (list_sort cmp l).
Proof.
  induction l as [|x l IH]; simpl; [constructor|].
  now apply sort_insert_sorted.
Qed.

Lemma sorted_lookup_le (l : list A) :
  StronglySorted (key_le key) l ->
  forall i j a b, (i <= j)%nat -> l !! i = Some a -> l !! j = Some b ->
                  (key a <= key b)%nat.
Proof.
  induction 1 as [|y l Hs IH Hy]; intros i j a b Hij Ha Hb.
  - now rewrite lookup_nil in Ha.
  - destruct i as [|i], j as [|j]; simpl in *.
    + assert (a = b) by congruence. subst. lia.
    + injection Ha as ->.
      rewrite Forall_forall in Hy. apply Hy.
      eapply list_elem_of_lookup_2; eassumption.
    + lia.
    + eapply IH; [|eassumption..]. lia.
Qed.
End Sorting.

Lemma compare_mp_len (a b : mp_dev) :
  (compare a b <=? 0)%Z = (mp_len a <=? mp_len b)%nat.
Proof.
  unfold compare, mp_len.
  destruct (Nat.ltb_spec (String.length (fst b)) (String.length (fst a)));
    destruct (Nat.eqb_spec (String.length (fst a)) (String.length (fst b)));
    destruct (Nat.leb_spec (String.length (fst a)) (String.length (fst b)));
    simpl; try reflexivity; lia.
Qed.

Example fstab_sorted :
  fst <$> list_sort compare fstab = ["/"; "/var"; "/home"; "/var/lib"].
Proof. reflexivity. Qed.

(** ** Running the monad *)

Lemma bind_run {S A B} (m : M S A) (k : A -> M S B) (s : S) :
  (m ≫= k) s = match m s with
               | (Ok a, s') => k a s'
               | (Raise e, s') => (Raise e, s')
               end.
Proof. reflexivity. Qed.

Lemma bind_run_Ok {S A B} (m : M S A) (k : A -> M S B) (s s' : S) (a : A) :
  m s = (Ok a, s') -> (m ≫= k) s = k a s'.
Proof. intros H. rewrite bind_run, H. reflexivity. Qed.

Lemma bind_run_Raise {S A B} (m : M S A) (k : A -> M S B) (s s' : S) (e : exn) :
  m s = (Raise e, s') -> (m ≫= k) s = (Raise e, s').
Proof. intros H. rewrite bind_run, H. reflexivity. Qed.

Lemma for_each_cons {S A} (x : A) (l : list A) (body : A -> M S unit) :
  for_each (x :: l) body = (body x ≫= fun _ => for_each l body).
Proof. reflexivity. Qed.

(** ** The machine inspector *)

Section InspectorFacts.
Context {W : Type}.
Variable g : guestfs W.

Lemma only_calls_mret {A} P (a : A) : only_calls P (mret a : M (host W) A).
Proof. intros h. exists []. simpl. rewrite app_nil_r. auto. Qed.

Lemma only_calls_raise {A} P e : only_calls P (raise e : M (host W) A).
Proof. intros h. exists []. simpl. rewrite app_nil_r. auto. Qed.

Lemma only_calls_lift_result {A} P (r : result A) :
  only_calls P (lift_result r : M (host W) A).
Proof. intros h. exists []. simpl. rewrite app_nil_r. auto. Qed.

Lemma only_calls_invoke {A} (P : call -> Prop) c (m : M W A) :
  P c -> only_calls P (invoke c m).
Proof.
  intros Hc h. exists [c]. unfold invoke.
  destruct (m (world h)) as [r w]. simpl. auto.
Qed.

Lemma only_calls_bind {A B} P (m : M (host W) A) (k : A -> M (host W) B) :
  only_calls P m -> (forall a, only_calls P (k a)) -> only_calls P (m ≫= k).
Proof.
  intros Hm Hk h. rewrite bind_run.
  destruct (Hm h) as (cs & E & F).
  destruct (m h) as [[a|e] h1]; simpl in *.
  - destruct (Hk a h1) as (cs' & E' & F').
    exists (cs ++ cs'). rewrite E', E, app_assoc.
    split; [reflexivity | now apply Forall_app_2].
  - exists cs. auto.
Qed.

Lemma only_calls_try {A} P (m : M (host W) A) (k : exn -> M (host W) A) :
  only_calls P m -> (forall e, only_calls P (k e)) -> only_calls P (try_except m k).
Proof.
  intros Hm Hk h. unfold try_except.
  destruct (Hm h) as (cs & E & F).
  destruct (m h) as [[a|e] h1]; simpl in *.
  - exists cs. auto.
  - destruct (Hk e h1) as (cs' & E' & F').
    exists (cs ++ cs'). rewrite E', E, app_assoc.
    split; [reflexivity | now apply Forall_app_2].
Qed.

Lemma only_calls_for_each {A} P (l : list A) (body : A -> M (host W) unit) :
  (forall x, only_calls P (body x)) -> only_calls P (for_each l body).
Proof.
  intros Hb. induction l as [|x l IH]; simpl.
  - apply only_calls_mret.
  - apply only_calls_bind; auto.
Qed.

Lemma only_calls_del_g P : P C_del_g -> only_calls P (del_g g).
Proof. intros Hc h. exists [C_del_g]. simpl. auto. Qed.

(** *** The mount phase *)

Lemma mount_all (l : list mp_dev) (h : host W) :
  exists h1, for_each l (mount_one g) h = (Ok tt, h1)
             /\ calls h1 = calls h ++ (mount_call <$> l).
Proof.
  revert h. induction l as [|p l IH]; intros h; simpl.
  - exists h. now rewrite app_nil_r.
  - rewrite bind_run. unfold mount_one at 1, try_except, invoke.
    destruct (mount_ro g p.2 p.1 (world h)) as [[[]|e] w]; simpl;
      match goal with |- context [for_each l _ ?h'] =>
        destruct (IH h') as (h1 & -> & E) end;
      exists h1; (split; [reflexivity|]);
      rewrite E; simpl; now rewrite <- app_assoc.
Qed.



(** The mount phase once the mount points are known: whatever the
    single [mount_ro] calls do, every pair of the sorted list is tried and
    the phase ends with [filesystems_mounted = True]. *)
Lemma mount_phase_run (root : string) (h : host W) (mps : list mp_dev) (w : W) :
  inspect_get_mountpoints g root (world h) = (Ok mps, w) ->
  exists h1,
    mount_filesystems g root h = (Ok true, h1)
    /\ calls h1 = calls h ++ C_inspect_get_mountpoints root
                             :: (mount_call <$> list_sort compare mps).
Proof.
  intros Hmps.
  set (h0 := {| world := w; calls := calls h ++ [C_inspect_get_mountpoints root] |}).
  assert (Hinv : invoke (C_inspect_get_mountpoints root)
                        (inspect_get_mountpoints g root) h = (Ok mps, h0)).
  { unfold invoke. now rewrite Hmps. }
  destruct (mount_all (list_sort compare mps) h0) as (h1 & Hall & Hcalls).
  exists h1. split.
  - unfold mount_filesystems, try_except.
    rewrite (bind_run_Ok _ _ _ _ _ Hinv), (bind_run_Ok _ _ _ _ _ Hall).
    reflexivity.
  - rewrite Hcalls. subst h0. simpl. now rewrite <- app_assoc.
Qed.

Lemma mount_call_lookup (l : list mp_dev) (i : nat) (device mountpoint : string) :
  (mount_call <$> l) !! i = Some (C_mount_ro device mountpoint) ->
  l !! i = Some (mountpoint, device).
Proof.
  rewrite list_lookup_fmap. destruct (l !! i) as [[m d]|]; simpl; [|discriminate].
  now intros [= -> ->].
Qed.


(** C6. The calls of the mount phase are [inspect_get_mountpoints] and
    then one [mount_ro] for each pair of [mps.sort(compare)], in the
    order of the sorted list.  That list holds the pairs returned, each
    once, in ascending length of the mount point: a [mount_ro] of a
    strictly shorter mount point comes before every [mount_ro] of a
    strictly longer one. *)
Theorem mount_order (root : string) (h : host W) (mps : list mp_dev) (w : W) :
  inspect_get_mountpoints g root (world h) = (Ok mps, w) ->
  exists attempts,
    calls (mount_filesystems g root h).2
    = calls h ++ C_inspect_get_mountpoints root :: (mount_call <$> attempts)
    /\ attempts = list_sort compare mps
    /\ Permutation attempts mps
    /\ StronglySorted (key_le mp_len) attempts
    /\ (forall i j da ma db mb,
          (mount_call <$> attempts) !! i = Some (C_mount_ro da ma) ->
          (mount_call <$> attempts) !! j = Some (C_mount_ro db mb) ->
          (String.length ma < String.length mb)%nat ->
          (i < j)%nat).
Proof.
  intros Hmps.
  destruct (mount_phase_run root h mps w Hmps) as (h1 & Hphase & Hcalls).
  pose proof (list_sort_sorted compare mp_len compare_mp_len mps) as Hs.
  exists (list_sort compare mps). rewrite Hphase. simpl.
  split; [exact Hcalls|]. split; [reflexivity|].
  split; [apply list_sort_perm|]. split; [exact Hs|].
  intros i j da ma db mb Ha%mount_call_lookup Hb%mount_call_lookup Hlt.
  destruct (Nat.lt_ge_cases i j) as [Hij|Hji]; [exact Hij|].
  pose proof (sorted_lookup_le mp_len _ Hs j i _ _ Hji Hb Ha) as Hle.
  unfold mp_len in Hle. simpl in Hle. lia.
Qed.


(** *** The attach phase *)

Lemma add_disk_spec (d : disk) (h : host W) :
  match attach_call d with
  | Some c => exists r w, add_disk g d h
                          = (r, {| world := w; calls := calls h ++ [c] |})
  | None => add_disk g d h = (Ok tt, h)
  end.
Proof.
  unfold add_disk, attachable, attach_call.
  destruct (path d) as [p|].
  - destruct (String.eqb (type d) "block" || String.eqb (type d) "file");
      [|reflexivity].
    rewrite bool_decide_eq_true_2 by discriminate. simpl.
    unfold invoke.
    destruct (add_drive_opts g p 1 (driver_type d) (world h)) as [r w].
    now exists r, w.
  - rewrite bool_decide_eq_false_2 by (intros H; now apply H).
    now rewrite andb_false_r.
Qed.

Lemma attach_loop (disks : list disk) (h : host W) :
  exists added,
    calls (for_each disks (add_disk g) h).2 = calls h ++ added
    /\ added `prefix_of` omap attach_call disks
    /\ ((for_each disks (add_disk g) h).1 = Ok tt
        -> added = omap attach_call disks).
Proof.
  revert h. induction disks as [|d disks IH]; intros h.
  - exists []. simpl. rewrite app_nil_r. repeat split. apply prefix_nil.
  - rewrite for_each_cons, bind_run. simpl omap.
    pose proof (add_disk_spec d h) as Hd.
    destruct (attach_call d) as [c|].
    + destruct Hd as (r & w & ->). destruct r as [[]|e].
      * destruct (IH {| world := w; calls := calls h ++ [c] |})
          as (added & E & Hp & Hall).
        exists (c :: added). simpl in E. rewrite E, <- app_assoc.
        split; [reflexivity|]. split; [now apply prefix_cons|].
        intros Hok. f_equal. auto.
      * exists [c]. simpl. split; [reflexivity|].
        split; [apply prefix_cons, prefix_nil | discriminate].
    + rewrite Hd. apply IH.
Qed.


(** *** What the rest of [_process] calls *)

Ltac calls_step :=
  first
    [ apply only_calls_bind; [|intros ?]
    | apply only_calls_try; [|intros ?]
    | apply only_calls_for_each; intros ?
    | apply only_calls_invoke
    | apply only_calls_del_g
    | apply only_calls_mret
    | apply only_calls_raise
    | apply only_calls_lift_result
    | match goal with
      | |- only_calls _ (if ?b then _ else _) => destruct b
      | |- only_calls _ (match ?x with _ => _ end) => destruct x
      end ].

Lemma mount_and_extract_calls (P : call -> Prop) (root : string) :
  (forall c, is_add_drive c = false -> c <> C_del_g -> P c) ->
  only_calls P (mount_and_extract g root).
Proof.
  intros HP.
  unfold mount_and_extract, mount_filesystems, mount_one, extract,
    get_icon, list_applications.
  repeat calls_step; apply HP; (reflexivity || discriminate).
Qed.

Lemma metadata_calls (P : call -> Prop) (root : string) :
  (forall c, is_add_drive c = false -> c <> C_del_g -> P c) ->
  only_calls P (get_product_variant g root).
Proof.
  intros HP. unfold get_product_variant.
  repeat calls_step; apply HP; (reflexivity || discriminate).
Qed.






(** *** Closing the handle *)

Lemma no_del_g_count (cs : list call) :
  Forall (fun c => c <> C_del_g) cs -> count_occ call_eq_dec cs C_del_g = 0%nat.
Proof.
  intros H. apply count_occ_not_In. rewrite Forall_forall in H.
  intros Hin. apply list_elem_of_In in Hin. now apply (H _ Hin).
Qed.

Lemma closes_bind {A B} ok (m : M (host W) A) (k : A -> M (host W) B) :
  only_calls (fun c => c <> C_del_g) m -> (forall a, closes ok (k a)) ->
  closes ok (m ≫= k).
Proof.
  intros Hm Hk h. rewrite bind_run.
  destruct (Hm h) as (cs & E & F).
  destruct (m h) as [[a|e] h1]; simpl in *.
  - destruct (Hk a h1) as (cs' & E' & Hn).
    exists (cs ++ cs'). rewrite E', E, app_assoc. split; [reflexivity|].
    now rewrite count_occ_app, (no_del_g_count _ F).
  - exists cs. now rewrite (no_del_g_count _ F).
Qed.

Lemma closes_mret_false {A} (ok : A -> bool) (a : A) :
  ok a = false -> closes ok (mret a : M (host W) A).
Proof.
  intros Ha h. exists []. simpl. rewrite Ha, app_nil_r. auto.
Qed.

Lemma closes_del_g {A} (ok : A -> bool) (a : A) :
  ok a = true -> closes ok (_ ← del_g g; mret a).
Proof.
  intros Ha h. exists [C_del_g]. simpl. rewrite Ha. auto.
Qed.

Lemma closes_fmap {A B} (ok : B -> bool) (f : A -> B) (m : M (host W) A) :
  closes (fun a => ok (f a)) m -> closes ok (a ← m; mret (f a)).
Proof.
  intros Hm h. rewrite bind_run. destruct (Hm h) as (cs & E & Hn).
  exists cs. destruct (m h) as [[a|e] h1]; simpl in *; auto.
Qed.

Lemma inspect_root_closes (root : string) :
  closes (fun _ => true) (inspect_root g root).
Proof.
  unfold inspect_root.
  repeat (apply closes_bind;
          [first [ apply only_calls_invoke; discriminate
                 | apply metadata_calls; auto
                 | apply mount_and_extract_calls; auto ]
          | intros ? ]).
  repeat match goal with p : (_ * _)%type |- _ => destruct p end.
  now apply closes_del_g.
Qed.

(** [del g] is the last statement of the path that found a root, and
    of no other path: the new calls of a run hold [C_del_g] once when
    the run returns inspection data, and not at all when it returns
    early or raises. *)
Lemma del_g_count (conn : connection) (v : vm) (vmuuid : string) :
  closes (fun r : option inspection => bool_decide (is_Some r))
         (_process g conn v vmuuid).
Proof.
  unfold _process.
  apply closes_bind.
  { unfold attach_disks, add_disk. repeat calls_step; discriminate. }
  intros _. apply closes_bind; [apply only_calls_invoke; discriminate|].
  intros _. apply closes_bind; [apply only_calls_invoke; discriminate|].
  intros [|root roots].
  - now apply closes_mret_false.
  - apply (closes_fmap _ Some). apply inspect_root_closes.
Qed.

(** *** Optional capabilities *)

Lemma returns_bind {A B} (Q : A -> Prop) (P : B -> Prop)
    (m : M (host W) A) (k : A -> M (host W) B) :
  returns Q m -> (forall a, Q a -> returns P (k a)) -> returns P (m ≫= k).
Proof.
  intros Hm Hk h b h' Hrun. rewrite bind_run in Hrun.
  destruct (m h) as [[a|e] h1] eqn:E; [|discriminate].
  eapply Hk; [eapply Hm|]; eassumption.
Qed.

Lemma returns_any {A} (m : M (host W) A) : returns (fun _ => True) m.
Proof. intros h a h' _. exact I. Qed.

Lemma returns_mret {A} (P : A -> Prop) (a : A) :
  P a -> returns P (mret a : M (host W) A).
Proof. intros Ha h a' h' [= <- _]. exact Ha. Qed.

Lemma product_variant_returns (root : string) :
  returns (fun pv => has_inspect_get_product_variant g = false -> pv = None)
          (get_product_variant g root).
Proof.
  unfold get_product_variant.
  destruct (has_inspect_get_product_variant g).
  - intros h a h' _. discriminate.
  - apply returns_mret. auto.
Qed.

Lemma icon_returns (root : string) :
  returns (fun found : bool * (option string * option (list string)) =>
             has_inspect_get_icon g = false -> found.2.1 = None)
          (mount_and_extract g root).
Proof.
  unfold mount_and_extract.
  eapply returns_bind; [apply returns_any|intros mounted _].
  eapply returns_bind with
    (Q := fun f : option string * option (list string) =>
            has_inspect_get_icon g = false -> f.1 = None);
    [|intros f Hf; now apply returns_mret].
  unfold extract. destruct mounted; [|now apply returns_mret].
  eapply returns_bind with
    (Q := fun i => has_inspect_get_icon g = false -> i = None).
  - unfold get_icon. destruct (has_inspect_get_icon g).
    + intros h a h' _. discriminate.
    + now apply returns_mret.
  - intros i Hi. eapply returns_bind; [apply returns_any|intros al _].
    now apply returns_mret.
Qed.

Lemma inspect_root_returns (root : string) :
  returns (fun r =>
             (has_inspect_get_product_variant g = false -> product_variant r = None)
             /\ (has_inspect_get_icon g = false -> icon r = None))
          (inspect_root g root).
Proof.
  unfold inspect_root.
  do 6 (eapply returns_bind; [apply returns_any|intros ? _]).
  eapply returns_bind; [apply product_variant_returns|intros pv Hpv].
  eapply returns_bind; [apply icon_returns|intros [mounted [i al]] Hi].
  eapply returns_bind; [apply returns_any|intros ? _].
  apply returns_mret. simpl. auto.
Qed.

Lemma process_returns (conn : connection) (v : vm) (vmuuid : string) :
  returns (fun o => forall r, o = Some r ->
             (has_inspect_get_product_variant g = false -> product_variant r = None)
             /\ (has_inspect_get_icon g = false -> icon r = None))
          (_process g conn v vmuuid).
Proof.
  unfold _process.
  do 2 (eapply returns_bind; [apply returns_any|intros ? _]).
  eapply returns_bind; [apply returns_any|intros roots _].
  destruct roots as [|root0 roots].
  - apply returns_mret. discriminate.
  - eapply returns_bind; [apply inspect_root_returns|intros r0 Hr0].
    apply returns_mret. intros r [= <-]. exact Hr0.
Qed.

Lemma list_applications_missing (root : string) :
  returns (fun _ => has_inspect_list_applications g = true)
          (list_applications g root).
Proof.
  unfold list_applications. destruct (has_inspect_list_applications g).
  - intros h a h' _. reflexivity.
  - intros h a h' Hrun. discriminate.
Qed.

Lemma apps_returns (root : string) :
  returns (fun found : bool * (option string * option (list string)) =>
             has_inspect_list_applications g = false ->
             found.1 = false /\ found.2.2 = None)
          (mount_and_extract g root).
Proof.
  unfold mount_and_extract.
  eapply returns_bind; [apply returns_any|intros mounted _].
  eapply returns_bind with
    (Q := fun f : option string * option (list string) =>
            has_inspect_list_applications g = false ->
            mounted = false /\ f.2 = None);
    [|intros f Hf; now apply returns_mret].
  unfold extract. destruct mounted; [|now apply returns_mret].
  eapply returns_bind; [apply returns_any|intros i _].
  eapply returns_bind; [apply list_applications_missing|intros al Hal].
  apply returns_mret. congruence.
Qed.

Lemma process_apps_returns (conn : connection) (v : vm) (vmuuid : string) :
  returns (fun o => forall r, o = Some r ->
             has_inspect_list_applications g = false ->
             filesystems_mounted r = false /\ apps r = None)
          (_process g conn v vmuuid).
Proof.
  unfold _process.
  do 2 (eapply returns_bind; [apply returns_any|intros ? _]).
  eapply returns_bind; [apply returns_any|intros roots _].
  destruct roots as [|root0 roots]; [apply returns_mret; discriminate|].
  eapply returns_bind with
    (Q := fun r => has_inspect_list_applications g = false ->
                   filesystems_mounted r = false /\ apps r = None);
    [|intros r0 Hr0; apply returns_mret; now intros r [= <-]].
  unfold inspect_root.
  do 7 (eapply returns_bind; [apply returns_any|intros ? _]).
  eapply returns_bind; [apply apps_returns|intros [mounted [i al]] Happs].
  eapply returns_bind; [apply returns_any|intros ? _].
  apply returns_mret. exact Happs.
Qed.

(** C5, as the code has it.  Without [inspect_get_product_variant] or
    without [inspect_get_icon] the step is skipped: it makes no call,
    raises nothing and leaves its variable [None], and so does the
    inspection data of a run that returns some; the two are tested
    independently.  [inspect_list_applications] is looked up without a
    test.  Without it the extraction raises [AttributeError] as soon as
    the icon step has returned, the run raises whenever the mount points
    can be listed, and a run that does return inspection data is one
    whose file systems were not mounted. *)
Theorem optional_capabilities (conn : connection) (v : vm) (vmuuid root : string)
    (h h1 h' : host W) (r : inspection) :
  _process g conn v vmuuid h = (Ok (Some r), h') ->
  (has_inspect_get_product_variant g = false ->
     get_product_variant g root h1 = (Ok None, h1) /\ product_variant r = None)
  /\ (has_inspect_get_icon g = false ->
        get_icon g root h1 = (Ok None, h1) /\ icon r = None)
  /\ (has_inspect_list_applications g = false ->
        list_applications g root h1
        = (Raise (AttributeError "inspect_list_applications"), h1)
        /\ filesystems_mounted r = false
        /\ apps r = None
        /\ (forall i hi,
              get_icon g root h1 = (Ok i, hi) ->
              extract g root true h1
              = (Raise (AttributeError "inspect_list_applications"), hi))
        /\ (forall mps w,
              inspect_get_mountpoints g root (world h1) = (Ok mps, w) ->
              exists e hx, mount_and_extract g root h1 = (Raise e, hx))).
Proof.
  intros Hrun.
  assert (Hr : (has_inspect_get_product_variant g = false -> product_variant r = None)
               /\ (has_inspect_get_icon g = false -> icon r = None)).
  { exact (process_returns conn v vmuuid h (Some r) h' Hrun r eq_refl). }
  destruct Hr as [Hpv Hicon].
  split; [|split].
  - intros Hno. split; [|auto]. unfold get_product_variant. now rewrite Hno.
  - intros Hno. split; [|auto]. unfold get_icon. now rewrite Hno.
  - intros Hno.
    destruct (process_apps_returns conn v vmuuid h (Some r) h' Hrun r eq_refl Hno)
      as [Hmounted Happs].
    assert (Hlist : forall hx, list_applications g root hx
              = (Raise (AttributeError "inspect_list_applications"), hx)).
    { intros hx. unfold list_applications. now rewrite Hno. }
    assert (Hextract : forall hx i hi, get_icon g root hx = (Ok i, hi) ->
              extract g root true hx
              = (Raise (AttributeError "inspect_list_applications"), hi)).
    { intros hx i hi Hi. unfold extract.
      rewrite (bind_run_Ok _ _ _ _ _ Hi).
      now rewrite (bind_run_Raise _ _ _ _ _ (Hlist hi)). }
    split; [exact (Hlist h1)|]. split; [exact Hmounted|].
    split; [exact Happs|]. split; [exact (Hextract h1)|].
    intros mps w Hmps.
    destruct (mount_phase_run root h1 mps w Hmps) as (h2 & Hphase & _).
    unfold mount_and_extract. rewrite (bind_run_Ok _ _ _ _ _ Hphase).
    destruct (get_icon g root h2) as [[i|e] hi] eqn:Hi.
    + exists (AttributeError "inspect_list_applications"), hi.
      now rewrite (bind_run_Raise _ _ _ _ _ (Hextract h2 i hi Hi)).
    + exists e, hi. apply bind_run_Raise. unfold extract.
      now rewrite (bind_run_Raise _ _ _ _ _ Hi).
Qed.

End InspectorFacts.

(** ** The machine inspector on scripted guests *)

Lemma mount_order_witness :
  calls (mount_filesystems (scripted fedora) "/dev/sda1" nowhere).2
  = [C_inspect_get_mountpoints "/dev/sda1";
     C_mount_ro "/dev/sda1" "/"; C_mount_ro "/dev/sda2" "/var";
     C_mount_ro "/dev/sda3" "/home"; C_mount_ro "/dev/sda4" "/var/lib"].
Proof.
  destruct (mount_order (scripted fedora) "/dev/sda1" nowhere fstab tt eq_refl)
    as (attempts & Hcalls & -> & _).
  exact Hcalls.
Defined.


(** With [/var] failing, [/home] and [/var/lib] are still attempted and
    icon and applications are still extracted. *)
Example var_unmountable_run :
  (_process (scripted var_unmountable) qemu_system (guest 1) "u1" nowhere).1
  = Ok (Some {| typ := "linux"; distro := "fedora";
                major_version := 14; minor_version := 0;
                hostname := "guest.example.com";
                product_name := "Fedora release 14";
                product_variant := Some "Server"; filesystems_mounted := true;
                icon := Some "PNG"; apps := Some ["bash"; "kernel"] |}).
Proof. reflexivity. Qed.


Example attach_phase_run :
  omap attach_call [sda; cdrom; netdisk; sdb]
  = [C_add_drive_opts "/var/lib/libvirt/images/a.img" 1 (Some "qcow2");
     C_add_drive_opts "/dev/vg/b" 1 None].
Proof. reflexivity. Qed.

(** C4, on the code.  When [launch] raises, and when no operating system
    is found, [_process] ends without [del g]: the run leaves the handle
    to the reference counting of the interpreter.  Only the path that
    reaches line 194 closes the handle itself. *)
Theorem handle_left_open :
  let failed := _process (scripted launch_fails) qemu_system (guest 1) "u1" nowhere in
  let blank := _process (scripted blank_disk) qemu_system (guest 1) "u1" nowhere in
  let found := _process (scripted fedora) qemu_system (guest 1) "u1" nowhere in
  failed.1 = Raise (Error "launch")
  /\ count_occ call_eq_dec (calls failed.2) C_del_g = 0%nat
  /\ blank.1 = Ok None
  /\ count_occ call_eq_dec (calls blank.2) C_del_g = 0%nat
  /\ count_occ call_eq_dec (calls found.2) C_del_g = 1%nat.
Proof. vm_compute. repeat split. Qed.

(** C5 fails for the list of applications: on a build without
    [inspect_list_applications] the inspection of a guest that a full
    build inspects does not return with [apps] unset, it raises. *)
Lemma applications_not_optional :
  has_inspect_list_applications (scripted no_applications) = false
  /\ (_process (scripted no_applications) qemu_system (guest 1) "u1" nowhere).1
     = Raise (AttributeError "inspect_list_applications")
  /\ ~ exists r h',
         _process (scripted no_applications) qemu_system (guest 1) "u1" nowhere
         = (Ok (Some r), h') /\ apps r = None.
Proof.
  split; [reflexivity|]. split; [reflexivity|].
  intros (r & h' & Hrun & _). vm_compute in Hrun. discriminate.
Qed.

Lemma optional_capabilities_witness :
  (has_inspect_get_product_variant (scripted bare_build) = false ->
     get_product_variant (scripted bare_build) "/dev/sda1" nowhere
     = (Ok None, nowhere)
     /\ product_variant found_by_bare_build = None)
  /\ (has_inspect_get_icon (scripted bare_build) = false ->
        get_icon (scripted bare_build) "/dev/sda1" nowhere = (Ok None, nowhere)
        /\ icon found_by_bare_build = None)
  /\ (has_inspect_list_applications (scripted bare_build) = false ->
        list_applications (scripted bare_build) "/dev/sda1" nowhere
        = (Raise (AttributeError "inspect_list_applications"), nowhere)
        /\ filesystems_mounted found_by_bare_build = false
        /\ apps found_by_bare_build = None
        /\ (forall i hi,
              get_icon (scripted bare_build) "/dev/sda1" nowhere = (Ok i, hi) ->
              extract (scripted bare_build) "/dev/sda1" true nowhere
              = (Raise (AttributeError "inspect_list_applications"), hi))
        /\ (forall mps w,
              inspect_get_mountpoints (scripted bare_build) "/dev/sda1"
                (world nowhere) = (Ok mps, w) ->
              exists e hx,
                mount_and_extract (scripted bare_build) "/dev/sda1" nowhere
                = (Raise e, hx))).
Proof.
  apply (optional_capabilities (scripted bare_build) qemu_system (guest 1)
           "u1" "/dev/sda1" nowhere nowhere
           (_process (scripted bare_build) qemu_system (guest 1) "u1" nowhere).2
           found_by_bare_build).
  reflexivity.
Defined.

(** Product variant and icon alone missing: the inspection completes. *)
Example old_libguestfs_run :
  (_process (scripted old_libguestfs) qemu_system (guest 1) "u1" nowhere).1
  = Ok (Some found_by_old_libguestfs).
Proof. reflexivity. Qed.

(** ** The thread *)

Lemma processed_app (j1 j2 : list event) :
  processed (j1 ++ j2) = processed j1 ++ processed j2.
Proof. apply omap_app. Qed.

Lemma scans_app (j1 j2 : list event) :
  scans (j1 ++ j2) = (scans j1 + scans j2)%nat.
Proof. unfold scans. now rewrite omap_app, length_app. Qed.

Lemma processed_gets (objs : list qobj) : processed (Ev_get <$> objs) = [].
Proof. induction objs; simpl; auto. Qed.


Lemma processed_app_gets (j : list event) (objs : list qobj) :
  processed (j ++ (Ev_get <$> objs)) = processed j.
Proof. now rewrite processed_app, processed_gets, app_nil_r. Qed.


Section ThreadFacts.
Context {W : Type}.
Variable g : guestfs W.
Variable lv : libvirt W.

Local Abbreviation self := (vmmInspection W).

(** *** The queue *)

Lemma queue_item_run (obj : qobj) (s : self) :
  _process_queue_item obj s
  = match registry_step obj (_conns s) with
    | Ok c => (Ok tt, set_conns c s)
    | Raise e => (Raise e, s)
    end.
Proof.
  destruct obj as [[c|]|uri|]; simpl.
  - destruct (is_remote c); simpl; [|reflexivity]. now destruct s.
  - now destruct s.
  - rewrite bind_run. simpl.
    destruct (_conns s !! uri); [reflexivity|reflexivity].
  - now destruct s.
Qed.

Lemma get_all_cons (obj : qobj) (q : list qobj) (s : self) :
  get_all (obj :: q) s
  = match registry_step obj (_conns s) with
    | Ok c => get_all q (set_conns c (record (Ev_get obj) (set_q q s)))
    | Raise e => (Raise e, record (Ev_get obj) (set_q q s))
    end.
Proof.
  simpl get_all. rewrite bind_run. unfold modify at 1.
  rewrite bind_run, queue_item_run. simpl _conns.
  now destruct (registry_step obj (_conns s)).
Qed.

(** The loop ends by [Empty] with every object applied, or by the
    [KeyError] of the first object that does not apply. *)
Lemma get_all_run (q : list qobj) (s : self) :
  match registry_steps q (_conns s) with
  | Ok c =>
      get_all q s
      = (Raise Empty,
         {| _q := match q with [] => _q s | _ => [] end; _conns := c; _vmseen := _vmseen s;
            outside := outside s;
            journal := journal s ++ (Ev_get <$> q) |})
  | Raise e =>
      exists s' done,
        get_all q s = (Raise e, s') /\ e <> Empty
        /\ _vmseen s' = _vmseen s /\ outside s' = outside s
        /\ journal s' = journal s ++ (Ev_get <$> done)
  end.
Proof.
  revert s. induction q as [|obj q IH]; intros s.
  - simpl. rewrite app_nil_r. now destruct s.
  - rewrite get_all_cons. simpl registry_steps.
    destruct (registry_step obj (_conns s)) as [c|e] eqn:Estep.
    + specialize (IH (set_conns c (record (Ev_get obj) (set_q q s)))).
      simpl in IH.
      destruct (registry_steps q c) as [c'|e].
      * etransitivity; [exact IH|]. rewrite <- app_assoc. simpl.
        now destruct q.
      * destruct IH as (s' & done & Hrun & Hne & Hv & Ho & Hj).
        exists s', (obj :: done). rewrite Hj, <- app_assoc.
        split; [exact Hrun|]. auto.
    + exists (record (Ev_get obj) (set_q q s)), [obj].
      repeat split; auto.
      destruct obj as [[c|]|uri|]; simpl in Estep;
        repeat match type of Estep with
               | context [if ?b then _ else _] => destruct b
               | context [match ?x with _ => _ end] => destruct x
               end; congruence.
Qed.

Lemma process_queue_cons (s : self) (first_obj : qobj) (q : list qobj) :
  _q s = first_obj :: q ->
  _process_queue s
  = Some match registry_step first_obj (_conns s) with
         | Ok c =>
             try_except (get_all q)
               (fun e => match e with Empty => mret tt | _ => raise e end)
               (set_conns c (record (Ev_get first_obj) (set_q q s)))
         | Raise e => (Raise e, record (Ev_get first_obj) (set_q q s))
         end.
Proof.
  intros Hq. unfold _process_queue. rewrite Hq. f_equal.
  rewrite bind_run. unfold modify at 1. rewrite bind_run, queue_item_run.
  simpl _conns. now destruct (registry_step first_obj (_conns s)).
Qed.

Lemma process_queue_run (s : self) (first_obj : qobj) (q : list qobj) :
  _q s = first_obj :: q ->
  match registry_steps (first_obj :: q) (_conns s) with
  | Ok c =>
      _process_queue s
      = Some (Ok tt,
              {| _q := []; _conns := c; _vmseen := _vmseen s;
                 outside := outside s;
                 journal := journal s ++ (Ev_get <$> first_obj :: q) |})
  | Raise e =>
      exists s' done,
        _process_queue s = Some (Raise e, s')
        /\ _vmseen s' = _vmseen s /\ outside s' = outside s
        /\ journal s' = journal s ++ (Ev_get <$> done)
  end.
Proof.
  intros Hq. rewrite (process_queue_cons s first_obj q Hq).
  simpl registry_steps.
  destruct (registry_step first_obj (_conns s)) as [c|e].
  - pose proof (get_all_run q (set_conns c (record (Ev_get first_obj) (set_q q s))))
      as Hall.
    simpl in Hall. unfold try_except.
    destruct (registry_steps q c) as [c'|e].
    + rewrite Hall. simpl. rewrite <- app_assoc. simpl. now destruct q.
    + destruct Hall as (s' & done & -> & Hne & Hv & Ho & Hj).
      exists s', (first_obj :: done). rewrite Hj, <- app_assoc.
      destruct e; try contradiction; auto.
  - exists (record (Ev_get first_obj) (set_q q s)), [first_obj]. auto.
Qed.

(** *** One machine *)

Lemma process_vm_run (conn : connection) (vmuuid : string) (s : self) :
  process_vm g lv conn vmuuid s
  = if bool_decide (vmuuid ∈ _vmseen s) then (Ok tt, s)
    else
      let tried := record (Ev_get_vm vmuuid) s in
      match get_vm lv conn vmuuid (world (outside s)) with
      | (Ok v, w) =>
          let s1 := record (Ev_process vmuuid)
                      (set_vmseen ({[vmuuid]} ∪ _vmseen s)
                         (set_outside {| world := w; calls := calls (outside s) |}
                            tried)) in
          (Ok tt, set_outside (_process g conn v vmuuid (outside s1)).2 s1)
      | (Raise e, w) =>
          (Ok tt, set_outside {| world := w; calls := calls (outside s) |} tried)
      end.
Proof.
  unfold process_vm. rewrite bind_run. simpl.
  destruct (bool_decide (vmuuid ∈ _vmseen s)); [reflexivity|].
  unfold try_except. rewrite bind_run. simpl.
  rewrite bind_run. unfold on_world, on_host. simpl.
  destruct (get_vm lv conn vmuuid (world (outside s))) as [[v|e] w]; simpl;
    [|reflexivity].
  rewrite !bind_run. simpl. rewrite !bind_run. simpl. rewrite !bind_run.
  destruct (_process g conn v vmuuid _) as [[r|e] h']; reflexivity.
Qed.

(** *** The registry *)

Lemma registry_step_last_added (obj : qobj) (c c1 : gmap string connection)
    (uri : string) (objs : list qobj) :
  registry_step obj c = Ok c1 ->
  last_added uri (obj :: objs) (c !! uri) = last_added uri objs (c1 !! uri).
Proof.
  destruct obj as [[conn|]|u|]; simpl.
  - destruct (is_remote conn); simpl; intros [= <-]; [reflexivity|].
    destruct (String.eqb_spec (get_uri conn) uri) as [<-|Hne].
    + now rewrite lookup_insert_eq.
    + now rewrite lookup_insert_ne.
  - now intros [= <-].
  - destruct (c !! u) eqn:Hu; [|discriminate]. intros [= <-].
    destruct (String.eqb_spec u uri) as [<-|Hne].
    + now rewrite lookup_delete_eq.
    + now rewrite lookup_delete_ne.
  - now intros [= <-].
Qed.

Lemma registry_steps_last_added (objs : list qobj) (c c' : gmap string connection) :
  registry_steps objs c = Ok c' ->
  forall uri, c' !! uri = last_added uri objs (c !! uri).
Proof.
  revert c. induction objs as [|obj objs IH]; intros c Hsteps uri.
  - simpl in *. congruence.
  - simpl registry_steps in Hsteps.
    destruct (registry_step obj c) as [c1|e] eqn:Hstep; [|discriminate].
    rewrite (registry_step_last_added _ _ _ _ _ Hstep). now apply IH.
Qed.

(** C10. [self._conns[uri] = conn] on a URI that has an entry replaces
    the entry and raises nothing: afterwards the URI maps to the new
    connection object, every other URI is as before.  Hence after a
    drain of the queue that raises nothing the registry holds, under
    each URI, the local connection added last under it (unless the URI
    was removed after that). *)
Theorem last_writer_wins (s : self) (conn old : connection) :
  is_remote conn = false ->
  _conns s !! get_uri conn = Some old ->
  exists s',
    _process_queue_item (Conn_added (Some conn)) s = (Ok tt, s')
    /\ _conns s' !! get_uri conn = Some conn
    /\ (forall uri, uri <> get_uri conn -> _conns s' !! uri = _conns s !! uri)
    /\ (forall (t t' : self) (first_obj : qobj) (q : list qobj),
          _q t = first_obj :: q ->
          _process_queue t = Some (Ok tt, t') ->
          forall uri, _conns t' !! uri
                      = last_added uri (first_obj :: q) (_conns t !! uri)).
Proof.
  intros Hlocal Hold.
  exists (set_conns (<[get_uri conn := conn]> (_conns s)) s).
  split; [|split; [|split]].
  - simpl. now rewrite Hlocal.
  - simpl. apply lookup_insert_eq.
  - intros uri Hne. simpl. now apply lookup_insert_ne.
  - intros t t' first_obj q Hq Hrun uri.
    pose proof (process_queue_run t first_obj q Hq) as Hdrain.
    destruct (registry_steps (first_obj :: q) (_conns t)) as [c|e] eqn:Hsteps.
    + rewrite Hdrain in Hrun. injection Hrun as <-.
      exact (registry_steps_last_added _ _ _ Hsteps uri).
    + destruct Hdrain as (s' & done & Hrun' & _).
      rewrite Hrun' in Hrun. discriminate.
Qed.

(** *** The scan *)

Lemma scan_step_refl (s : self) : scan_step s s.
Proof.
  unfold scan_step. split_and!; auto.
  exists []. now rewrite app_nil_r.
Qed.

Lemma scan_step_trans (s1 s2 s3 : self) :
  scan_step s1 s2 -> scan_step s2 s3 -> scan_step s1 s3.
Proof.
  intros (Hq & Hc & Hv & (t & Hj & Ht) & Ho) (Hq' & Hc' & Hv' & (t' & Hj' & Ht') & Ho').
  unfold scan_step. split_and!; try congruence; auto.
  - set_solver.
  - exists (t ++ t'). rewrite Hj', Hj, app_assoc, scans_app. split; [reflexivity|lia].
Qed.

Lemma scan_step_outside (s : self) (h : host W) : scan_step s (set_outside h s).
Proof.
  unfold scan_step. split_and!; auto.
  exists []. simpl. now rewrite app_nil_r.
Qed.

Lemma once_processed (s : self) (vmuuid : string) :
  once s -> vmuuid ∉ _vmseen s -> vmuuid ∉ processed (journal s).
Proof. intros [_ Hseen] Hnot Hin. apply Hnot. now apply Hseen. Qed.

(** Events that are not [Ev_process] leave the invariant alone. *)
Lemma once_journal (s s' : self) :
  processed (journal s') = processed (journal s) ->
  _vmseen s' = _vmseen s -> once s -> once s'.
Proof. unfold once. intros -> ->. auto. Qed.

Lemma process_vm_step (conn : connection) (vmuuid : string) (s : self) :
  (process_vm g lv conn vmuuid s).1 = Ok tt
  /\ scan_step s (process_vm g lv conn vmuuid s).2.
Proof.
  rewrite process_vm_run.
  destruct (bool_decide (vmuuid ∈ _vmseen s)) eqn:Hseen.
  - split; [reflexivity|apply scan_step_refl].
  - apply bool_decide_eq_false in Hseen.
    destruct (get_vm lv conn vmuuid (world (outside s))) as [[v|e] w].
    + split; [reflexivity|]. unfold scan_step. simpl. split_and!; auto.
      * set_solver.
      * exists [Ev_get_vm vmuuid; Ev_process vmuuid].
        now rewrite <- app_assoc.
      * intros Honce. pose proof (once_processed s vmuuid Honce Hseen) as Hnew.
        destruct Honce as [Hnd Hs]. unfold once. simpl.
        rewrite !processed_app. simpl. rewrite app_nil_r. split.
        -- apply NoDup_app. split; [exact Hnd|].
           split; [|apply NoDup_singleton].
           intros u Hu Hu'. apply list_elem_of_singleton in Hu'. now subst u.
        -- intros u [Hu|Hu]%elem_of_app.
           ++ specialize (Hs u Hu). set_solver.
           ++ apply list_elem_of_singleton in Hu. set_solver.
    + split; [reflexivity|]. unfold scan_step. simpl. split_and!; auto.
      * exists [Ev_get_vm vmuuid]. auto.
      * apply once_journal; simpl; [|reflexivity].
        rewrite processed_app. simpl. now rewrite app_nil_r.
Qed.

Lemma process_vms_step (conn : connection) (vmuuids : list string) (s : self) :
  (for_each vmuuids (process_vm g lv conn) s).1 = Ok tt
  /\ scan_step s (for_each vmuuids (process_vm g lv conn) s).2.
Proof.
  revert s. induction vmuuids as [|u l IH]; intros s.
  - split; [reflexivity|apply scan_step_refl].
  - rewrite for_each_cons, bind_run.
    destruct (process_vm_step conn u s) as [Hok Hstep].
    destruct (process_vm g lv conn u s) as [[[]|e] s1]; [|discriminate].
    destruct (IH s1) as [Hok' Hstep'].
    split; [exact Hok'|]. eapply scan_step_trans; eassumption.
Qed.

Lemma process_conn_step (conn : connection) (s : self) :
  scan_step s (process_conn g lv conn s).2.
Proof.
  unfold process_conn. rewrite bind_run. unfold on_world, on_host.
  destruct (list_vm_uuids lv conn (world (outside s))) as [[l|e] w]; simpl.
  - eapply scan_step_trans; [apply scan_step_outside|].
    apply process_vms_step.
  - apply scan_step_outside.
Qed.

Lemma process_conns_step (conns : list connection) (s : self) :
  scan_step s (for_each conns (process_conn g lv) s).2.
Proof.
  revert s. induction conns as [|c l IH]; intros s.
  - apply scan_step_refl.
  - rewrite for_each_cons, bind_run.
    pose proof (process_conn_step c s) as Hstep.
    destruct (process_conn g lv c s) as [[[]|e] s1]; simpl in *.
    + eapply scan_step_trans; [exact Hstep|apply IH].
    + exact Hstep.
Qed.

Lemma process_vms_run (s : self) :
  _process_vms g lv s
  = for_each (snd <$> map_to_list (_conns s)) (process_conn g lv)
      (record Ev_scan s).
Proof. reflexivity. Qed.

(** One scan: the journal grows by [Ev_scan] and by events that are not
    scans. *)
Lemma process_vms_scan (s : self) :
  _q (_process_vms g lv s).2 = _q s
  /\ _conns (_process_vms g lv s).2 = _conns s
  /\ (exists tail, journal (_process_vms g lv s).2 = journal s ++ Ev_scan :: tail
                   /\ scans tail = 0%nat)
  /\ (once s -> once (_process_vms g lv s).2).
Proof.
  rewrite process_vms_run.
  destruct (process_conns_step (snd <$> map_to_list (_conns s)) (record Ev_scan s))
    as (Hq & Hc & _ & (tail & Hj & Ht) & Ho).
  split_and!; auto.
  - exists tail. rewrite Hj. simpl. now rewrite <- app_assoc.
  - intros Honce. apply Ho. revert Honce. apply once_journal; [|reflexivity].
    simpl. rewrite processed_app. simpl. now rewrite app_nil_r.
Qed.

(** C2, as the code has it.  For a machine that is not in [_vmseen] the
    body of the scan loop raises nothing, so the loop goes on with the
    next machine.  Once [get_vm] has returned the domain, the machine
    is put in [_vmseen] and only then [_process] runs: whatever
    [_process] does, the thread ends the step with the machine seen.
    When [get_vm] itself raises, the machine is not put in [_vmseen]. *)
Theorem seen_before_process (conn : connection) (vmuuid : string)
    (rest : list string) (s : self) :
  vmuuid ∉ _vmseen s ->
  exists s',
    process_vm g lv conn vmuuid s = (Ok tt, s')
    /\ for_each (vmuuid :: rest) (process_vm g lv conn) s
       = for_each rest (process_vm g lv conn) s'
    /\ (forall v w, get_vm lv conn vmuuid (world (outside s)) = (Ok v, w) ->
          exists s1,
            vmuuid ∈ _vmseen s1
            /\ journal s1 = journal s ++ [Ev_get_vm vmuuid; Ev_process vmuuid]
            /\ s' = set_outside (_process g conn v vmuuid (outside s1)).2 s1
            /\ vmuuid ∈ _vmseen s')
    /\ (forall e w, get_vm lv conn vmuuid (world (outside s)) = (Raise e, w) ->
          _vmseen s' = _vmseen s
          /\ journal s' = journal s ++ [Ev_get_vm vmuuid]).
Proof.
  intros Hnew.
  pose proof (process_vm_run conn vmuuid s) as Hrun.
  rewrite (bool_decide_eq_false_2 _ Hnew) in Hrun.
  destruct (process_vm_step conn vmuuid s) as [Hok _].
  destruct (process_vm g lv conn vmuuid s) as [r s'] eqn:Hbody.
  simpl in Hok. subst r. exists s'.
  split; [reflexivity|]. split.
  { rewrite for_each_cons. now rewrite (bind_run_Ok _ _ _ _ _ Hbody). }
  split.
  - intros v w Hget. rewrite Hget in Hrun. simpl in Hrun.
    injection Hrun as ->.
    exists (record (Ev_process vmuuid)
              (set_vmseen ({[vmuuid]} ∪ _vmseen s)
                 (set_outside {| world := w; calls := calls (outside s) |}
                    (record (Ev_get_vm vmuuid) s)))).
    split; [|split; [|split]].
    + simpl. set_solver.
    + simpl. now rewrite <- app_assoc.
    + reflexivity.
    + simpl. set_solver.
  - intros e w Hget. rewrite Hget in Hrun. injection Hrun as ->.
    split; reflexivity.
Qed.

(** *** The lifetime of the thread *)

Lemma process_queue_once (s s' : self) (r : result unit) :
  _process_queue s = Some (r, s') -> once s -> once s'.
Proof.
  intros Hrun. destruct (_q s) as [|first_obj q] eqn:Hq.
  { unfold _process_queue in Hrun. now rewrite Hq in Hrun. }
  pose proof (process_queue_run s first_obj q Hq) as Hdrain.
  destruct (registry_steps (first_obj :: q) (_conns s)) as [c|e].
  - rewrite Hdrain in Hrun. injection Hrun as <- <-.
    apply once_journal; [|reflexivity].
    exact (processed_app_gets (journal s) (first_obj :: q)).
  - destruct Hdrain as (s1 & done & Hrun' & Hv & _ & Hj).
    rewrite Hrun' in Hrun. injection Hrun as <- <-.
    apply once_journal; [|exact Hv].
    rewrite Hj. apply processed_app_gets.
Qed.

Lemma run_once_once (s s' : self) (r : result unit) :
  run_once g lv s = Some (r, s') -> once s -> once s'.
Proof.
  unfold run_once. intros Hrun Honce.
  destruct (_process_queue s) as [[[[]|e] s1]|] eqn:Hdrain; [| |discriminate].
  - injection Hrun as Hrun.
    pose proof (process_vms_scan s1) as (_ & _ & _ & Hkeep).
    rewrite Hrun in Hkeep. apply Hkeep.
    eapply process_queue_once; eassumption.
  - injection Hrun as <- <-. eapply process_queue_once; eassumption.
Qed.

Lemma run_once_all (posted : list (list qobj)) (s : self) :
  once s -> once (run g lv posted s).2.
Proof.
  revert s. induction posted as [|burst posted IH]; intros s Honce; [exact Honce|].
  simpl run.
  assert (Hposted : once (set_q (_q s ++ burst) s)) by exact Honce.
  destruct (run_once g lv (set_q (_q s ++ burst) s)) as [[[[]|e] s']|] eqn:Hturn.
  - apply IH. eapply run_once_once; eassumption.
  - simpl. eapply run_once_once; eassumption.
  - now apply IH.
Qed.

Lemma init_once (h : host W) : once (init h).
Proof. split; [constructor|]. simpl. intros u Hu. now apply elem_of_nil in Hu. Qed.

(** C3. Whatever is posted to the thread and whatever the connections
    list, scan after scan, [_process] is called at most once for a
    machine identifier; the machines it was called for are in
    [_vmseen]. *)
Theorem at_most_once (posted : list (list qobj)) (h : host W) (vmuuid : string) :
  (count_occ string_dec (processed (journal (run g lv posted (init h)).2)) vmuuid
   <= 1)%nat
  /\ (vmuuid ∈ processed (journal (run g lv posted (init h)).2) ->
      vmuuid ∈ _vmseen (run g lv posted (init h)).2).
Proof.
  destruct (run_once_all posted (init h) (init_once h)) as [Hnd Hseen].
  split; [|apply Hseen].
  apply NoDup_ListNoDup in Hnd.
  exact (proj1 (NoDup_count_occ string_dec _) Hnd vmuuid).
Qed.

(** *** One turn of the loop *)


End ThreadFacts.

(** ** The thread on scripted hosts *)

Ltac compute_elem :=
  match goal with
  | |- ?x ∈ ?X =>
      refine (bool_decide_eq_true_1 (x ∈ X) _); vm_compute; reflexivity
  end.

Ltac compute_not_elem :=
  match goal with
  | |- ?x ∉ ?X =>
      refine (bool_decide_eq_false_1 (x ∈ X) _); vm_compute; reflexivity
  end.

Lemma removal_raises {W} (s : vmmInspection W) (uri : string) :
  _conns s !! uri = None ->
  _process_queue_item (Conn_removed uri) s = (Raise (KeyError uri), s).
Proof. intros Hnone. rewrite queue_item_run. simpl. now rewrite Hnone. Qed.

(** C1, on the code.  [del self._conns[uri]] raises [KeyError] for a URI
    that has no entry.  A remote connection is never entered in the
    registry, so the removal of one is such a URI: the exception leaves
    [_process_queue] and [run], the thread ends, and what is posted
    afterwards is never looked at. *)
Theorem removal_of_unknown_uri :
  let uri := get_uri qemu_ssh in
  let ended := run (scripted fedora) vanishing_A
                 [[Conn_added (Some qemu_ssh)]; [Conn_removed uri];
                  [Conn_added (Some qemu_system)]] listening in
  _process_queue_item (Conn_removed uri) listening = (Raise (KeyError uri), listening)
  /\ ended.1 = Raise (KeyError uri)
  /\ _conns ended.2 = ∅
  /\ journal ended.2
     = [Ev_get (Conn_added (Some qemu_ssh)); Ev_scan; Ev_get (Conn_removed uri)].
Proof. vm_compute. repeat split. Qed.

(** C2 fails when [get_vm] raises: "A" is tried, is not put in
    [_vmseen], and is tried again by the next scan. *)
Lemma unseen_when_get_vm_raises :
  let scanned := (_process_vms (scripted fedora) vanishing_A tracking).2 in
  let again := (_process_vms (scripted fedora) vanishing_A scanned).2 in
  ("A" ∉ _vmseen tracking)
  /\ (get_vm vanishing_A qemu_system "A" tt).1 = Raise (Error "no domain")
  /\ ("A" ∉ _vmseen scanned)
  /\ ("B" ∈ _vmseen scanned)
  /\ journal again
     = [Ev_scan; Ev_get_vm "A"; Ev_get_vm "B"; Ev_process "B";
        Ev_scan; Ev_get_vm "A"].
Proof.
  split_and!.
  - compute_not_elem.
  - reflexivity.
  - compute_not_elem.
  - compute_elem.
  - vm_compute. reflexivity.
Qed.

Lemma seen_before_process_witness :
  ("B" ∉ _vmseen tracking)
  /\ exists s',
       process_vm (scripted launch_fails) vanishing_A qemu_system "B" tracking
       = (Ok tt, s')
       /\ ("B" ∈ _vmseen s').
Proof.
  assert (Hnew : "B" ∉ _vmseen tracking) by compute_not_elem.
  split; [exact Hnew|].
  destruct (seen_before_process (scripted launch_fails) vanishing_A qemu_system
              "B" [] tracking Hnew) as (s' & Hrun & _ & Hok & _).
  exists s'. split; [exact Hrun|].
  destruct (Hok {| vm_obj := 2; get_disk_devices := Ok [] |} tt eq_refl)
    as (_ & _ & _ & _ & Hseen).
  exact Hseen.
Defined.

Example five_posted_one_scan :
  journal (run (scripted fedora) vanishing_A [five_posted] listening).2
  = (Ev_get <$> five_posted)
    ++ [Ev_scan; Ev_get_vm "A"; Ev_get_vm "B"; Ev_process "B"].
Proof. vm_compute. reflexivity. Qed.


Lemma last_writer_wins_witness :
  is_remote qemu_system' = false
  /\ _conns tracking !! get_uri qemu_system' = Some qemu_system
  /\ exists s',
       _process_queue_item (Conn_added (Some qemu_system')) tracking = (Ok tt, s')
       /\ _conns s' !! get_uri qemu_system' = Some qemu_system'.
Proof.
  assert (Hold : _conns tracking !! get_uri qemu_system' = Some qemu_system)
    by (vm_compute; reflexivity).
  split; [reflexivity|]. split; [exact Hold|].
  destruct (last_writer_wins tracking qemu_system' qemu_system eq_refl Hold)
    as (s' & Hrun & Hnew & _).
  exists s'. split; [exact Hrun|exact Hnew].
Defined.

(** A removal that follows the additions takes the entry away, and a
    later addition brings the URI back with the new object. *)
Example registry_after_sequence :
  last_added "qemu:///system"
    [Conn_added (Some qemu_system); Conn_removed "qemu:///system";
     Conn_added (Some qemu_system'); Conn_added (Some qemu_ssh)] None
  = Some qemu_system'.
Proof. reflexivity. Qed.

(** * Further properties of the thread *)

Section ThreadMore.
Context {W : Type}.
Variable g : guestfs W.
Variable lv : libvirt W.

Local Abbreviation self := (vmmInspection W).

(** ** What a drain of the queue touches *)

Lemma queue_item_frame (obj : qobj) (s : self) :
  _conns (_process_queue_item obj s).2
  = match registry_step obj (_conns s) with
    | Ok c => c
    | Raise _ => _conns s
    end
  /\ _vmseen (_process_queue_item obj s).2 = _vmseen s
  /\ outside (_process_queue_item obj s).2 = outside s.
Proof.
  rewrite queue_item_run. now destruct (registry_step obj (_conns s)).
Qed.

(** An invariant of the registry that the objects of [q] keep is kept by
    the loop over [q], however the loop ends. *)
Lemma get_all_inv (I : gmap string connection -> Prop) (Q : qobj -> Prop) :
  (forall obj c c', Q obj -> I c -> registry_step obj c = Ok c' -> I c') ->
  forall (q : list qobj) (s : self),
    Forall Q q -> I (_conns s) ->
    I (_conns (get_all q s).2)
    /\ _vmseen (get_all q s).2 = _vmseen s
    /\ outside (get_all q s).2 = outside s.
Proof.
  intros Hstep q. induction q as [|obj q IH]; intros s HQ HI.
  - auto.
  - rewrite get_all_cons. inversion HQ as [|? ? Hobj Hq]; subst.
    destruct (registry_step obj (_conns s)) as [c|e] eqn:Estep.
    + apply (IH (set_conns c (record (Ev_get obj) (set_q q s))) Hq).
      simpl. eapply Hstep; eassumption.
    + auto.
Qed.

Lemma process_queue_inv (I : gmap string connection -> Prop) (Q : qobj -> Prop) :
  (forall obj c c', Q obj -> I c -> registry_step obj c = Ok c' -> I c') ->
  forall (s s' : self) (r : result unit),
    Forall Q (_q s) -> I (_conns s) ->
    _process_queue s = Some (r, s') ->
    I (_conns s') /\ _vmseen s' = _vmseen s /\ outside s' = outside s.
Proof.
  intros Hstep s s' r HQ HI Hrun.
  destruct (_q s) as [|first_obj q] eqn:Hq.
  { unfold _process_queue in Hrun. now rewrite Hq in Hrun. }
  rewrite (process_queue_cons s first_obj q Hq) in Hrun.
  inversion HQ as [|? ? Hobj Hrest]; subst.
  destruct (registry_step first_obj (_conns s)) as [c|e] eqn:Estep.
  - pose proof (get_all_inv I Q Hstep q
                  (set_conns c (record (Ev_get first_obj) (set_q q s))) Hrest)
      as Hall.
    simpl in Hall. specialize (Hall (Hstep _ _ _ Hobj HI Estep)).
    unfold try_except in Hrun.
    destruct (get_all q _) as [[[]|e] s1]; simpl in Hall.
    + injection Hrun as <- <-. exact Hall.
    + destruct e; injection Hrun as <- <-; exact Hall.
  - injection Hrun as <- <-. auto.
Qed.

Lemma process_vms_frame (s : self) :
  _conns (_process_vms g lv s).2 = _conns s
  /\ _vmseen s ⊆ _vmseen (_process_vms g lv s).2.
Proof.
  rewrite process_vms_run.
  destruct (process_conns_step g lv (snd <$> map_to_list (_conns s))
              (record Ev_scan s)) as (_ & Hc & Hv & _).
  split; [exact Hc|exact Hv].
Qed.

(** ** The registry holds local connections *)

Lemma registry_step_local (obj : qobj) (c c' : gmap string connection) :
  True -> local_registry c -> registry_step obj c = Ok c' -> local_registry c'.
Proof.
  intros _ Hloc. destruct obj as [[conn|]|u|]; simpl.
  - destruct (is_remote conn) eqn:Hrem; intros [= <-]; [exact Hloc|].
    intros uri conn'. rewrite lookup_insert. case_decide as Huri.
    + intros [= <-]. auto.
    + apply Hloc.
  - now intros [= <-].
  - destruct (c !! u); [|discriminate]. intros [= <-] uri conn'.
    rewrite lookup_delete. case_decide; [discriminate|apply Hloc].
  - now intros [= <-].
Qed.

Lemma run_local (posted : list (list qobj)) (s : self) :
  local_registry (_conns s) -> local_registry (_conns (run g lv posted s).2).
Proof.
  revert s. induction posted as [|burst posted IH]; intros s Hloc; [exact Hloc|].
  simpl run. unfold run_once.
  set (t := set_q (_q s ++ burst) s).
  destruct (_process_queue t) as [[[[]|e] s1]|] eqn:Hdrain.
  - destruct (process_queue_inv local_registry (fun _ => True) registry_step_local
                t s1 _ (Forall_true _ _ (fun _ => I)) Hloc Hdrain) as (Hloc1 & _).
    destruct (process_vms_frame s1) as [Hc _].
    destruct (_process_vms g lv s1) as [[[]|e] s2]; simpl in Hc.
    + apply IH. now rewrite Hc.
    + simpl. now rewrite Hc.
  - simpl.
    now destruct (process_queue_inv local_registry (fun _ => True)
                    registry_step_local t s1 _ (Forall_true _ _ (fun _ => I))
                    Hloc Hdrain).
  - now apply IH.
Qed.

(** X1. Whatever is posted, an entry of the registry is a connection that
    is not remote, stored under its own URI. *)
Theorem registry_local_only (posted : list (list qobj)) (h : host W)
    (uri : string) (conn : connection) :
  _conns (run g lv posted (init h)).2 !! uri = Some conn ->
  is_remote conn = false /\ get_uri conn = uri.
Proof.
  apply (run_local posted (init h)).
  intros u c. simpl. now rewrite lookup_empty.
Qed.

(** ** Adding and removing a connection *)

(** X2. The callbacks queue in the order of the calls.  When the main
    thread adds a local connection and then removes its URI before the
    thread wakes up, the drain takes the addition first, so that the
    removal finds the entry: it raises nothing, whether or not the URI
    was in the registry before, and leaves the registry without the URI
    and otherwise as it was. *)
Theorem add_then_remove (s : self) (conn : connection) :
  is_remote conn = false ->
  _q s = [] ->
  exists s1,
    _process_queue (conn_removed (get_uri conn) (conn_added (Some conn) s))
    = Some (Ok tt, s1)
    /\ _q s1 = []
    /\ _conns s1 = delete (get_uri conn) (_conns s)
    /\ journal s1 = journal s ++ [Ev_get (Conn_added (Some conn));
                                  Ev_get (Conn_removed (get_uri conn))].
Proof.
  intros Hlocal Hq.
  set (t := conn_removed (get_uri conn) (conn_added (Some conn) s)).
  assert (Ht : _q t = Conn_added (Some conn) :: [Conn_removed (get_uri conn)]).
  { subst t. simpl. now rewrite Hq. }
  pose proof (process_queue_run t _ _ Ht) as Hdrain.
  simpl registry_steps in Hdrain. rewrite Hlocal in Hdrain.
  change (_conns t) with (_conns s) in Hdrain.
  rewrite lookup_insert_eq in Hdrain.
  eexists. split; [exact Hdrain|]. simpl.
  split; [reflexivity|]. split; [apply delete_insert_eq|reflexivity].
Qed.

(** ** Hosts that are not local *)

Lemma registry_step_unused (obj : qobj) (c c' : gmap string connection) :
  adds_local obj = false -> c = ∅ -> registry_step obj c = Ok c' -> c' = ∅.
Proof.
  intros Hobj ->. destruct obj as [[conn|]|u|]; simpl in *.
  - apply negb_false_iff in Hobj. rewrite Hobj. now intros [= <-].
  - now intros [= <-].
  - rewrite lookup_empty. discriminate.
  - now intros [= <-].
Qed.

Lemma process_vms_unused (s : self) :
  _conns s = ∅ -> _process_vms g lv s = (Ok tt, record Ev_scan s).
Proof.
  intros Hempty. rewrite process_vms_run. simpl _conns.
  now rewrite Hempty, map_to_list_empty.
Qed.

Lemma process_queue_journal (s s' : self) (r : result unit) :
  _process_queue s = Some (r, s') ->
  (exists done, journal s' = journal s ++ (Ev_get <$> done))
  /\ (r = Ok tt -> _q s' = []).
Proof.
  intros Hrun. destruct (_q s) as [|first_obj q] eqn:Hq.
  { unfold _process_queue in Hrun. now rewrite Hq in Hrun. }
  pose proof (process_queue_run s first_obj q Hq) as Hdrain.
  destruct (registry_steps (first_obj :: q) (_conns s)) as [c|e].
  - rewrite Hdrain in Hrun. injection Hrun as <- <-.
    split; [now exists (first_obj :: q)|auto].
  - destruct Hdrain as (s1 & done & Hrun' & _ & _ & Hj).
    rewrite Hrun' in Hrun. injection Hrun as <- <-.
    split; [eauto|discriminate].
Qed.

Lemma run_unused (posted : list (list qobj)) (s : self) :
  Forall (Forall (fun obj => adds_local obj = false)) posted ->
  _q s = [] -> _conns s = ∅ ->
  _conns (run g lv posted s).2 = ∅
  /\ _vmseen (run g lv posted s).2 = _vmseen s
  /\ outside (run g lv posted s).2 = outside s
  /\ processed (journal (run g lv posted s).2) = processed (journal s).
Proof.
  revert s. induction posted as [|burst posted IH]; intros s Hposted Hq Hempty.
  - auto.
  - inversion Hposted as [|? ? Hburst Hrest]; subst.
    simpl run. unfold run_once.
    set (t := set_q (_q s ++ burst) s).
    assert (HQ : Forall (fun obj => adds_local obj = false) (_q t)).
    { subst t. simpl. now rewrite Hq. }
    destruct (_process_queue t) as [[[[]|e] s1]|] eqn:Hdrain.
    + destruct (process_queue_inv _ _ registry_step_unused t s1 _ HQ Hempty Hdrain)
        as (Hc1 & Hv1 & Ho1).
      destruct (process_queue_journal t s1 _ Hdrain) as ((done & Hj1) & Hq1).
      rewrite (process_vms_unused s1 Hc1).
      destruct (IH (record Ev_scan s1) Hrest (Hq1 eq_refl) Hc1)
        as (Hc & Hv & Ho & Hj).
      rewrite Hc, Hv, Ho, Hj. simpl.
      rewrite Hv1, Ho1, Hj1, !processed_app, processed_gets. simpl.
      now rewrite !app_nil_r.
    + destruct (process_queue_inv _ _ registry_step_unused t s1 _ HQ Hempty Hdrain)
        as (Hc1 & Hv1 & Ho1).
      destruct (process_queue_journal t s1 _ Hdrain) as ((done & Hj1) & _).
      simpl. rewrite Hc1, Hv1, Ho1, Hj1. split_and!; auto.
      apply processed_app_gets.
    + assert (Hburst' : burst = []).
      { unfold _process_queue in Hdrain. subst t. simpl in Hdrain.
        rewrite Hq in Hdrain. simpl in Hdrain. now destruct burst. }
      apply (IH t Hrest); subst t; simpl; [now rewrite Hq, Hburst'|exact Hempty].
Qed.

(** X3. As long as the main thread announces remote connections only
    (or [None]), the registry stays empty, so that no machine is fetched
    or inspected and nothing outside the thread is called: the machines of
    remote hosts are never looked at. *)
Theorem remote_only_no_inspection (posted : list (list qobj)) (h : host W) :
  Forall (Forall (fun obj => adds_local obj = false)) posted ->
  _conns (run g lv posted (init h)).2 = ∅
  /\ _vmseen (run g lv posted (init h)).2 = ∅
  /\ outside (run g lv posted (init h)).2 = h
  /\ processed (journal (run g lv posted (init h)).2) = [].
Proof.
  intros Hposted.
  exact (run_unused posted (init h) Hposted eq_refl eq_refl).
Qed.

(** ** The set of seen machines *)

Lemma process_queue_frame (s s' : self) (r : result unit) :
  _process_queue s = Some (r, s') ->
  _vmseen s' = _vmseen s /\ outside s' = outside s.
Proof.
  intros Hrun.
  destruct (process_queue_inv (fun _ => True) (fun _ => True)
              (fun _ _ _ _ _ _ => I) s s' r (Forall_true _ _ (fun _ => I)) I Hrun)
    as (_ & Hv & Ho).
  auto.
Qed.

(** X4. Nothing is ever taken out of [_vmseen]: over any run, from any
    state, the set only grows.  A drain of the queue leaves the set, and
    everything outside the thread, as they are. *)
Theorem vmseen_monotone (posted : list (list qobj)) (s : self) :
  _vmseen s ⊆ _vmseen (run g lv posted s).2
  /\ (forall r s', _process_queue s = Some (r, s') ->
                   _vmseen s' = _vmseen s /\ outside s' = outside s).
Proof.
  split; [|intros r s'; apply process_queue_frame].
  revert s. induction posted as [|burst posted IH]; intros s; [done|].
  simpl run. unfold run_once.
  set (t := set_q (_q s ++ burst) s).
  destruct (_process_queue t) as [[[[]|e] s1]|] eqn:Hdrain.
  - destruct (process_queue_frame t s1 _ Hdrain) as [Hv _].
    destruct (process_vms_frame s1) as [_ Hgrow].
    destruct (_process_vms g lv s1) as [[[]|e] s2]; simpl in Hgrow.
    + transitivity (_vmseen s2); [|apply IH].
      transitivity (_vmseen s1); [now rewrite Hv|exact Hgrow].
    + simpl. transitivity (_vmseen s1); [now rewrite Hv|exact Hgrow].
  - destruct (process_queue_frame t s1 _ Hdrain) as [Hv _].
    simpl. now rewrite Hv.
  - apply (IH t).
Qed.

(** X5. A connection whose machines are all in [_vmseen] costs the scan
    nothing: no domain is fetched, nothing is inspected, the thread is as
    before. *)
Theorem seen_machines_skipped (conn : connection) (vmuuids : list string) (s : self) :
  (forall u, u ∈ vmuuids -> u ∈ _vmseen s) ->
  for_each vmuuids (process_vm g lv conn) s = (Ok tt, s).
Proof.
  induction vmuuids as [|u l IH]; intros Hseen; [reflexivity|].
  rewrite for_each_cons.
  assert (Hu : process_vm g lv conn u s = (Ok tt, s)).
  { rewrite process_vm_run, bool_decide_eq_true_2; [reflexivity|].
    apply Hseen. left. }
  rewrite (bind_run_Ok _ _ _ _ _ Hu). apply IH.
  intros u' Hu'. apply Hseen. now right.
Qed.

(** ** Exceptions that end the thread *)

(** X6. [conn.list_vm_uuids()] is called outside the [try]: when it
    raises, the exception leaves the scan at once, the connections that
    come after are not scanned, and [_process_vms] raises. *)
Theorem list_failure_ends_scan (conn : connection) (rest : list connection)
    (s : self) (e : exn) (w : W) :
  list_vm_uuids lv conn (world (outside s)) = (Raise e, w) ->
  for_each (conn :: rest) (process_conn g lv) s
  = (Raise e, set_outside {| world := w; calls := calls (outside s) |} s)
  /\ (forall uri, _conns s = {[uri := conn]} ->
        _process_vms g lv s
        = (Raise e, set_outside {| world := w; calls := calls (outside s) |}
                      (record Ev_scan s))).
Proof.
  intros Hlist.
  assert (Hconn : forall t : self, outside t = outside s ->
            process_conn g lv conn t
            = (Raise e, set_outside {| world := w; calls := calls (outside s) |} t)).
  { intros t Ht. unfold process_conn. rewrite bind_run.
    unfold on_world, on_host. rewrite Ht, Hlist. reflexivity. }
  split.
  - rewrite for_each_cons. now rewrite (bind_run_Raise _ _ _ _ _ (Hconn s eq_refl)).
  - intros uri Hreg. rewrite process_vms_run. simpl _conns.
    rewrite Hreg, map_to_list_singleton. simpl.
    now rewrite (bind_run_Raise _ _ _ _ _ (Hconn (record Ev_scan s) eq_refl)).
Qed.

End ThreadMore.

(** * Further properties of the machine inspector *)

(** ** The comparison and the sort *)

(** X14. [compare] is a three-way comparison of the lengths of the mount
    points: exchanging the arguments negates it, it is 0 exactly on equal
    lengths and -1 exactly on a shorter first mount point, and its order
    is transitive, as [list.sort] needs. *)
Theorem compare_consistent (a b c : mp_dev) :
  compare a b = (- compare b a)%Z
  /\ (compare a b = 0%Z <-> mp_len a = mp_len b)
  /\ (compare a b = (-1)%Z <-> (mp_len a < mp_len b)%nat)
  /\ ((compare a b <= 0)%Z -> (compare b c <= 0)%Z -> (compare a c <= 0)%Z).
Proof.
  unfold compare, mp_len.
  destruct (Nat.ltb_spec (String.length b.1) (String.length a.1));
    destruct (Nat.ltb_spec (String.length a.1) (String.length b.1));
    destruct (Nat.ltb_spec (String.length c.1) (String.length b.1));
    destruct (Nat.ltb_spec (String.length c.1) (String.length a.1));
    destruct (Nat.eqb_spec (String.length a.1) (String.length b.1));
    destruct (Nat.eqb_spec (String.length b.1) (String.length a.1));
    destruct (Nat.eqb_spec (String.length b.1) (String.length c.1));
    destruct (Nat.eqb_spec (String.length a.1) (String.length c.1));
    try lia; repeat split; intros; try lia; try discriminate.
Qed.

Lemma sort_insert_stable (k : nat) (x : mp_dev) (l : list mp_dev) :
  filter (fun p => mp_len p = k) (sort_insert compare x l)
  = filter (fun p => mp_len p = k) (x :: l).
Proof.
  induction l as [|y l IH]; simpl; [reflexivity|].
  rewrite compare_mp_len.
  destruct (Nat.leb_spec (mp_len x) (mp_len y)) as [Hle|Hlt]; [reflexivity|].
  rewrite (filter_cons _ y), IH, !filter_cons.
  repeat case_decide; try reflexivity; lia.
Qed.

(** X15. The sort is stable: mount points of the same length are mounted
    in the order in which [inspect_get_mountpoints] returned them. *)
Theorem mount_order_stable (mps : list mp_dev) (k : nat) :
  filter (fun p => mp_len p = k) (list_sort compare mps)
  = filter (fun p => mp_len p = k) mps.
Proof.
  induction mps as [|x l IH]; simpl; [reflexivity|].
  now rewrite sort_insert_stable, !filter_cons, IH.
Qed.

Section InspectorMore.
Context {W : Type}.
Variable g : guestfs W.

(** ** The shape of a run *)

(** [_process] after [GuestFS()] (lines 115-194). *)
Lemma process_run (conn : connection) (v : vm) (vmuuid : string) (h : host W) :
  _process g conn v vmuuid h
  = match GuestFS g (world h) with
    | (Ok _, w) =>
        (_ ← (disks ← lift_result (get_disk_devices v);
              for_each disks (add_disk g));
         _ ← invoke C_launch (launch g);
         roots ← invoke C_inspect_os (inspect_os g);
         match roots with
         | [] => mret None
         | root :: _ => r ← inspect_root g root; mret (Some r)
         end) {| world := w; calls := calls h ++ [C_GuestFS] |}
    | (Raise e, w) => (Raise e, {| world := w; calls := calls h ++ [C_GuestFS] |})
    end.
Proof.
  unfold _process, attach_disks. rewrite !bind_run. unfold invoke at 1.
  destruct (GuestFS g (world h)) as [[[]|e] w]; reflexivity.
Qed.

Ltac calls_tac :=
  first
    [ apply only_calls_bind; [|intros ?]
    | apply only_calls_try; [|intros ?]
    | apply only_calls_for_each; intros ?
    | apply only_calls_invoke
    | apply only_calls_del_g
    | apply only_calls_mret
    | apply only_calls_raise
    | apply only_calls_lift_result
    | match goal with
      | |- only_calls _ (if ?b then _ else _) => destruct b
      | |- only_calls _ (match ?x with _ => _ end) => destruct x
      end ].

(** After [GuestFS()], every call is a method call on the handle, or
    [del g]. *)
Lemma after_new_calls (P : call -> Prop) (v : vm) :
  (forall c, c <> C_GuestFS -> P c) ->
  only_calls P
    (_ ← (disks ← lift_result (get_disk_devices v);
          for_each disks (add_disk g));
     _ ← invoke C_launch (launch g);
     roots ← invoke C_inspect_os (inspect_os g);
     match roots with
     | [] => mret None
     | root :: _ => r ← inspect_root g root; mret (Some r)
     end).
Proof.
  intros HP.
  unfold inspect_root, add_disk, get_product_variant, mount_and_extract,
    mount_filesystems, mount_one, extract, get_icon, list_applications.
  repeat calls_tac; apply HP; discriminate.
Qed.

(** X13. A run of [_process] creates one handle, first of all: the calls
    it adds start with [GuestFS()] and hold no other. *)
Theorem one_handle (conn : connection) (v : vm) (vmuuid : string) (h : host W) :
  exists cs,
    calls (_process g conn v vmuuid h).2 = calls h ++ C_GuestFS :: cs
    /\ C_GuestFS ∉ cs.
Proof.
  rewrite process_run.
  destruct (GuestFS g (world h)) as [[[]|e] w].
  - destruct (after_new_calls (fun c => c <> C_GuestFS) v (fun c Hc => Hc)
                {| world := w; calls := calls h ++ [C_GuestFS] |})
      as (cs & E & F).
    exists cs. rewrite E. simpl. rewrite <- app_assoc.
    split; [reflexivity|].
    rewrite Forall_forall in F. intros Hin. now apply (F _ Hin).
  - exists []. split; [reflexivity|]. apply not_elem_of_nil.
Qed.

(** ** No operating system *)

(** X8. When [_process] returns without inspection data, the disks
    were attached, the appliance was launched and [inspect_os] was asked,
    and that was all: the handle was not used after the empty answer. *)
Theorem no_roots_calls (conn : connection) (v : vm) (vmuuid : string)
    (h h' : host W) :
  _process g conn v vmuuid h = (Ok None, h') ->
  exists disks,
    get_disk_devices v = Ok disks
    /\ calls h' = calls h ++ C_GuestFS :: omap attach_call disks
                                          ++ [C_launch; C_inspect_os].
Proof.
  rewrite process_run.
  destruct (GuestFS g (world h)) as [[[]|e] w]; [|discriminate].
  set (h0 := {| world := w; calls := calls h ++ [C_GuestFS] |}).
  rewrite !bind_run. unfold lift_result at 1.
  destruct (get_disk_devices v) as [disks|e]; [|discriminate].
  destruct (attach_loop g disks h0) as (added & E & _ & Hall).
  destruct (for_each disks (add_disk g) h0) as [[[]|e] h1];
    [|intros Hx; discriminate Hx].
  simpl in E, Hall. rewrite (Hall eq_refl) in E.
  rewrite bind_run. unfold invoke at 1.
  destruct (launch g (world h1)) as [[[]|e] w1]; [|intros Hx; discriminate Hx].
  rewrite bind_run. unfold invoke at 1. simpl.
  destruct (inspect_os g w1) as [[[|root roots]|e] w2]; simpl.
  - intros [= <-]. exists disks. split; [reflexivity|]. simpl.
    rewrite E. subst h0. simpl. now rewrite <- !app_assoc.
  - rewrite bind_run.
    destruct (inspect_root g root _) as [[r|e] h2]; intros Hx; discriminate Hx.
  - intros Hx; discriminate Hx.
Qed.

(** ** The inspection data *)

Lemma icon_shape (root : string) :
  returns (fun i => i <> Some "") (get_icon g root).
Proof.
  unfold get_icon. destruct (has_inspect_get_icon g).
  - eapply returns_bind; [apply returns_any|intros i _].
    apply returns_mret. destruct (String.eqb_spec i ""); congruence.
  - now apply returns_mret.
Qed.

Lemma found_shape (root : string) :
  returns (fun x : bool * (option string * option (list string)) =>
             x.2.1 <> Some ""
             /\ (x.2.2 = None <-> x.1 = false)
             /\ (x.1 = false -> x.2.1 = None))
          (mount_and_extract g root).
Proof.
  unfold mount_and_extract.
  eapply returns_bind; [apply returns_any|intros mounted _].
  eapply returns_bind with
    (Q := fun f : option string * option (list string) =>
            f.1 <> Some "" /\ (f.2 = None <-> mounted = false)
            /\ (mounted = false -> f.1 = None));
    [|intros f Hf; now apply returns_mret].
  unfold extract. destruct mounted.
  - eapply returns_bind; [apply icon_shape|intros i Hi].
    eapply returns_bind; [apply returns_any|intros al _].
    apply returns_mret. simpl. split; [exact Hi|]. split; [|discriminate].
    split; discriminate.
  - apply returns_mret. simpl. split; [discriminate|].
    split; [split; reflexivity|reflexivity].
Qed.

Lemma inspection_shape (conn : connection) (v : vm) (vmuuid : string) :
  returns (fun o => forall r, o = Some r ->
             icon r <> Some ""
             /\ (apps r = None <-> filesystems_mounted r = false)
             /\ (filesystems_mounted r = false -> icon r = None))
          (_process g conn v vmuuid).
Proof.
  unfold _process.
  do 2 (eapply returns_bind; [apply returns_any|intros ? _]).
  eapply returns_bind; [apply returns_any|intros roots _].
  destruct roots as [|root roots]; [apply returns_mret; discriminate|].
  eapply returns_bind with
    (Q := fun r => icon r <> Some ""
                   /\ (apps r = None <-> filesystems_mounted r = false)
                   /\ (filesystems_mounted r = false -> icon r = None));
    [|intros r0 Hr0; apply returns_mret; now intros r [= <-]].
  unfold inspect_root.
  do 7 (eapply returns_bind; [apply returns_any|intros ? _]).
  eapply returns_bind; [apply found_shape|intros [mounted [i al]] Hshape].
  eapply returns_bind; [apply returns_any|intros ? _].
  apply returns_mret. exact Hshape.
Qed.

(** X9. An empty icon is no icon: the icon of the inspection data is
    never the empty string. *)
Theorem icon_never_empty (conn : connection) (v : vm) (vmuuid : string)
    (h h' : host W) (r : inspection) :
  _process g conn v vmuuid h = (Ok (Some r), h') ->
  icon r <> Some "".
Proof.
  intros Hrun.
  exact (proj1 (inspection_shape conn v vmuuid h (Some r) h' Hrun r eq_refl)).
Qed.

(** X10. Icon and applications are read from mounted file systems only:
    in the inspection data the list of applications is unset exactly when
    [filesystems_mounted] is false, and then the icon is unset, too. *)
Theorem extraction_gated (conn : connection) (v : vm) (vmuuid : string)
    (h h' : host W) (r : inspection) :
  _process g conn v vmuuid h = (Ok (Some r), h') ->
  (apps r = None <-> filesystems_mounted r = false)
  /\ (filesystems_mounted r = false -> icon r = None).
Proof.
  intros Hrun.
  exact (proj2 (inspection_shape conn v vmuuid h (Some r) h' Hrun r eq_refl)).
Qed.

(** X11. When [inspect_get_mountpoints] raises, nothing is mounted and
    nothing is extracted, and that is no error of the inspection: the
    mount phase ends with [filesystems_mounted = False], icon and
    applications stay unset, and the only call made is the failed one. *)
Theorem mountpoints_failure (root : string) (h : host W) (e : exn) (w : W) :
  inspect_get_mountpoints g root (world h) = (Raise e, w) ->
  mount_and_extract g root h
  = (Ok (false, (None, None)),
     {| world := w; calls := calls h ++ [C_inspect_get_mountpoints root] |}).
Proof.
  intros Hmps. unfold mount_and_extract, mount_filesystems.
  rewrite bind_run. unfold try_except. rewrite bind_run.
  unfold invoke at 1. now rewrite Hmps.
Qed.

(** ** The end of a run *)

Lemma ends_with_del_bind {A B} (ok : B -> Prop)
    (m : M (host W) A) (k : A -> M (host W) B) :
  only_calls (fun _ => True) m -> (forall a, ends_with_del ok (k a)) ->
  ends_with_del ok (m ≫= k).
Proof.
  intros Hm Hk h b h' Hrun Hb. rewrite bind_run in Hrun.
  destruct (Hm h) as (cs & E & _).
  destruct (m h) as [[a|e] h1]; [|discriminate]. simpl in E.
  destruct (Hk a h1 b h' Hrun Hb) as (cs' & E').
  exists (cs ++ cs'). now rewrite E', E, <- !app_assoc.
Qed.

Lemma inspect_root_ends (root : string) :
  ends_with_del (fun _ => True) (inspect_root g root).
Proof.
  unfold inspect_root.
  repeat (apply ends_with_del_bind;
          [first [ now apply only_calls_invoke
                 | now apply metadata_calls
                 | now apply mount_and_extract_calls ]
          | intros ? ]).
  repeat match goal with p : (_ * _)%type |- _ => destruct p end.
  intros h r h' [= <- <-] _. exists []. reflexivity.
Qed.

Lemma process_ends (conn : connection) (v : vm) (vmuuid : string) :
  ends_with_del (fun o : option inspection => o <> None)
                (_process g conn v vmuuid).
Proof.
  unfold _process.
  apply ends_with_del_bind.
  { unfold attach_disks, add_disk. repeat calls_tac; exact I. }
  intros _. apply ends_with_del_bind; [now apply only_calls_invoke|].
  intros _. apply ends_with_del_bind; [now apply only_calls_invoke|].
  intros [|root roots].
  - intros h0 a h0' [= <- <-] Hsome. now contradiction Hsome.
  - intros h0 a h0' Hrun _. rewrite bind_run in Hrun.
    destruct (inspect_root g root h0) as [[r|e] h1] eqn:Hroot; [|discriminate].
    injection Hrun as <- <-.
    exact (inspect_root_ends root h0 r h1 Hroot I).
Qed.

(** X12. When [_process] returns inspection data, [del g] is the last
    thing it did with the handle, and it did so once: no call follows. *)
Theorem del_g_last (conn : connection) (v : vm) (vmuuid : string)
    (h h' : host W) (r : inspection) :
  _process g conn v vmuuid h = (Ok (Some r), h') ->
  exists cs, calls h' = calls h ++ cs ++ [C_del_g] /\ C_del_g ∉ cs.
Proof.
  intros Hrun.
  destruct (process_ends conn v vmuuid h (Some r) h' Hrun) as (cs & E);
    [discriminate|].
  exists cs. split; [exact E|].
  destruct (del_g_count g conn v vmuuid h) as (cs' & E' & Hcount).
  rewrite Hrun in E', Hcount. simpl in E', Hcount.
  rewrite E in E'. apply app_inv_head in E'. subst cs'.
  rewrite count_occ_app in Hcount. simpl in Hcount.
  destruct (call_eq_dec C_del_g C_del_g) as [_|Hne]; [|now contradiction Hne].
  intros Hin. apply list_elem_of_In in Hin.
  apply (count_occ_In call_eq_dec) in Hin. lia.
Qed.

End InspectorMore.

(** ** Instances on scripted hosts *)

Lemma registry_local_only_witness :
  is_remote qemu_system' = false /\ get_uri qemu_system' = "qemu:///system".
Proof.
  apply (registry_local_only (scripted fedora) vanishing_A
           [[Conn_added (Some qemu_system); Conn_added (Some qemu_ssh)];
            [Conn_added (Some qemu_system')]] nowhere).
  vm_compute. reflexivity.
Defined.

Lemma add_then_remove_witness :
  exists s1,
    _process_queue (conn_removed (get_uri qemu_system)
                      (conn_added (Some qemu_system) listening))
    = Some (Ok tt, s1)
    /\ _q s1 = []
    /\ _conns s1 = delete (get_uri qemu_system) (_conns listening)
    /\ journal s1 = journal listening
                    ++ [Ev_get (Conn_added (Some qemu_system));
                        Ev_get (Conn_removed (get_uri qemu_system))].
Proof.
  apply (add_then_remove listening qemu_system); reflexivity.
Defined.

Lemma remote_only_no_inspection_witness :
  let posted := [[Conn_added (Some qemu_ssh); Vm_added]; [Conn_added None]] in
  _conns (run (scripted fedora) vanishing_A posted (init nowhere)).2 = ∅
  /\ _vmseen (run (scripted fedora) vanishing_A posted (init nowhere)).2 = ∅
  /\ outside (run (scripted fedora) vanishing_A posted (init nowhere)).2 = nowhere
  /\ processed (journal (run (scripted fedora) vanishing_A posted (init nowhere)).2)
     = [].
Proof.
  apply (remote_only_no_inspection (scripted fedora) vanishing_A
           [[Conn_added (Some qemu_ssh); Vm_added]; [Conn_added None]] nowhere).
  repeat constructor.
Defined.

Lemma seen_machines_skipped_witness :
  for_each ["B"; "B"] (process_vm (scripted fedora) vanishing_A qemu_system)
    (set_vmseen {["B"]} tracking)
  = (Ok tt, set_vmseen {["B"]} tracking).
Proof.
  apply (seen_machines_skipped (scripted fedora) vanishing_A qemu_system
           ["B"; "B"] (set_vmseen {["B"]} tracking)).
  intros u Hu. simpl.
  assert (u = "B") as ->; [|now apply elem_of_singleton].
  apply elem_of_cons in Hu as [->|Hu]; [reflexivity|].
  now apply list_elem_of_singleton in Hu.
Defined.

Lemma list_failure_ends_scan_witness :
  for_each [qemu_system; qemu_system']
    (process_conn (scripted fedora) unreachable_host) tracking
  = (Raise (Error "libvirt"),
     set_outside {| world := tt; calls := calls (outside tracking) |} tracking)
  /\ (forall uri, _conns tracking = {[uri := qemu_system]} ->
        _process_vms (scripted fedora) unreachable_host tracking
        = (Raise (Error "libvirt"),
           set_outside {| world := tt; calls := calls (outside tracking) |}
             (record Ev_scan tracking))).
Proof.
  apply (list_failure_ends_scan (scripted fedora) unreachable_host qemu_system
           [qemu_system'] tracking (Error "libvirt") tt).
  reflexivity.
Defined.

Lemma no_roots_calls_witness :
  exists disks,
    get_disk_devices (guest 1) = Ok disks
    /\ calls (_process (scripted blank_disk) qemu_system (guest 1) "u1" nowhere).2
       = calls nowhere ++ C_GuestFS :: omap attach_call disks
                                       ++ [C_launch; C_inspect_os].
Proof.
  apply (no_roots_calls (scripted blank_disk) qemu_system (guest 1) "u1" nowhere).
  reflexivity.
Defined.

Lemma icon_never_empty_witness :
  (inspect_get_icon empty_icon "/dev/sda1" 0 1 tt).1 = Ok ""
  /\ (_process empty_icon qemu_system (guest 1) "u1" nowhere).1
     = Ok (Some found_with_empty_icon)
  /\ (C_inspect_get_icon "/dev/sda1" 0 1
      ∈ calls (_process empty_icon qemu_system (guest 1) "u1" nowhere).2)
  /\ icon found_with_empty_icon <> Some "".
Proof.
  split; [reflexivity|]. split; [reflexivity|]. split.
  - vm_compute. repeat (first [apply list_elem_of_here | apply list_elem_of_further]).
  - apply (icon_never_empty empty_icon qemu_system (guest 1) "u1" nowhere
             (_process empty_icon qemu_system (guest 1) "u1" nowhere).2).
    reflexivity.
Defined.

Lemma extraction_gated_witness :
  (apps found_by_old_libguestfs = None
   <-> filesystems_mounted found_by_old_libguestfs = false)
  /\ (filesystems_mounted found_by_old_libguestfs = false
      -> icon found_by_old_libguestfs = None).
Proof.
  apply (extraction_gated (scripted old_libguestfs) qemu_system (guest 1) "u1"
           nowhere
           (_process (scripted old_libguestfs) qemu_system (guest 1) "u1" nowhere).2).
  reflexivity.
Defined.

Lemma mountpoints_failure_witness :
  mount_and_extract (scripted no_mountpoints) "/dev/sda1" nowhere
  = (Ok (false, (None, None)),
     {| world := tt;
        calls := calls nowhere ++ [C_inspect_get_mountpoints "/dev/sda1"] |}).
Proof.
  apply (mountpoints_failure (scripted no_mountpoints) "/dev/sda1" nowhere
           (Error "inspect_get_mountpoints") tt).
  reflexivity.
Defined.

(** The inspection goes on to the end without the mount points. *)
Example no_mountpoints_run :
  (_process (scripted no_mountpoints) qemu_system (guest 1) "u1" nowhere).1
  = Ok (Some {| typ := "linux"; distro := "fedora";
                major_version := 14; minor_version := 0;
                hostname := "guest.example.com";
                product_name := "Fedora release 14";
                product_variant := Some "Server"; filesystems_mounted := false;
                icon := None; apps := None |}).
Proof. reflexivity. Qed.

Lemma del_g_last_witness :
  exists cs,
    calls (_process (scripted old_libguestfs) qemu_system (guest 1) "u1" nowhere).2
    = calls nowhere ++ cs ++ [C_del_g]
    /\ C_del_g ∉ cs.
Proof.
  apply (del_g_last (scripted old_libguestfs) qemu_system (guest 1) "u1" nowhere
           (_process (scripted old_libguestfs) qemu_system (guest 1) "u1" nowhere).2
           found_by_old_libguestfs).
  reflexivity.
Defined.

(** ** The idle thread and the scan *)

Section ThreadIdle.
Context {W : Type}.
Variable g : guestfs W.
Variable lv : libvirt W.

(** X16. The thread does not poll: while nothing is posted it stays in
    the first [get()], and neither scans nor changes anything. *)
Theorem idle_until_posted (posted : list (list qobj)) (s : vmmInspection W) :
  _q s = [] ->
  Forall (fun burst => burst = []) posted ->
  run g lv posted s = (Ok tt, s).
Proof.
  intros Hq Hposted. induction Hposted as [|burst posted -> _ IH]; [reflexivity|].
  assert (Hs : set_q (_q s ++ []) s = s).
  { rewrite app_nil_r. now destruct s. }
  assert (Hidle : run_once g lv s = None).
  { unfold run_once, _process_queue. now rewrite Hq. }
  simpl run. now rewrite Hs, Hidle.
Qed.

(** X17. A scan reads the registry and the queue but never writes them,
    whatever the connections and libguestfs do, and whether the scan
    returns or raises; the journal gets one [Ev_scan]. *)
Theorem scan_keeps_registry (s : vmmInspection W) :
  _conns (_process_vms g lv s).2 = _conns s
  /\ _q (_process_vms g lv s).2 = _q s
  /\ scans (journal (_process_vms g lv s).2) = (scans (journal s) + 1)%nat.
Proof.
  destruct (process_vms_scan g lv s) as (Hq & Hc & (tail & Hj & Ht) & _).
  split; [exact Hc|]. split; [exact Hq|].
  rewrite Hj, scans_app.
  change (Ev_scan :: tail) with ([Ev_scan] ++ tail).
  rewrite scans_app, Ht. simpl. lia.
Qed.

End ThreadIdle.

Lemma idle_until_posted_witness :
  run (scripted fedora) vanishing_A [[]; []; []] tracking = (Ok tt, tracking).
Proof.
  apply (idle_until_posted (scripted fedora) vanishing_A [[]; []; []] tracking).
  - reflexivity.
  - repeat constructor.
Defined.
